(** * post-init: the [uvinit] core (src/commands/uvinit.rs, src/config.rs)

    A shallow embedding of the manifest walk, the dynamic-version detector,
    the [pyproject.toml] transformer and the [run_uvinit] orchestrator.

    Documents are modelled at the level of toml_edit's logical tree: a
    table is an insertion-ordered map (toml_edit keeps an [IndexMap]) from
    keys to items, written here as an association list whose order is the
    map's order.  Lexical presentation (whitespace, comments) is not part of
    the model; the serializer is a parameter where a claim needs it. *)

From Stdlib Require Import String List Bool ZArith NArith Permutation Lia.
From Stdlib Require Import Init.Byte.
Import ListNotations.
Set Warnings "-register-all".
Open Scope string_scope.
Open Scope list_scope.

(** ** Results (anyhow::Result) *)

Inductive result (A : Type) : Type :=
| Ok (a : A)
| Err (e : string).
Arguments Ok {A} a.
Arguments Err {A} e.

(** ** toml_edit's document model *)

(** [Value]: strings, integers, booleans, arrays and inline tables; other
    scalars (floats, datetimes) are kept as their raw text. *)
Inductive value : Type :=
| VString (s : string)
| VInteger (z : Z)
| VBoolean (b : bool)
| VOther (raw : string)
| VArray (vs : list value)
| VInlineTable (kvs : list (string * value)).

(** [Item]: a value, a (standard) table or an array of tables.  Parsed
    documents hold no [Item::None], so it is left out.  A [Table] carries
    its [implicit] and [dotted] flags and its ordered entries. *)
Inductive item : Type :=
| ItemValue (v : value)
| ItemTable (t : table)
| ItemArrayOfTables (ts : list table)
with table : Type :=
| Table (implicit : bool) (dotted : bool) (entries : list (string * item)).

Definition entries (t : table) : list (string * item) :=
  match t with Table _ _ es => es end.

Definition is_implicit (t : table) : bool :=
  match t with Table i _ _ => i end.

Definition map_entries (f : list (string * item) -> list (string * item)) (t : table) : table :=
  match t with Table i d es => Table i d (f es) end.

(** [Table::set_implicit] *)
Definition set_implicit (b : bool) (t : table) : table :=
  match t with Table _ d es => Table b d es end.

(** [toml_edit::table()]: a fresh, explicit, non-dotted, empty table. *)
Definition new_table : table := Table false false [].

(** ** IndexMap operations on the entries *)

(** [get]: the entry of key [k]. *)
Fixpoint eget (k : string) (es : list (string * item)) : option item :=
  match es with
  | [] => None
  | (k', it) :: rest => if String.eqb k k' then Some it else eget k rest
  end.

(** [insert]: an occupied entry keeps its position and gets the new item;
    a vacant key is pushed at the end. *)
Fixpoint einsert (k : string) (it : item) (es : list (string * item)) : list (string * item) :=
  match es with
  | [] => [(k, it)]
  | (k', it') :: rest =>
      if String.eqb k k' then (k', it) :: rest else (k', it') :: einsert k it rest
  end.

(** [get_mut] followed by an in-place update of the item found. *)
Fixpoint emodify (k : string) (f : item -> item) (es : list (string * item)) : list (string * item) :=
  match es with
  | [] => []
  | (k', it) :: rest =>
      if String.eqb k k' then (k', f it) :: rest else (k', it) :: emodify k f rest
  end.

(** [remove] ([shift_remove]): drops the entry, keeping the order of the rest. *)
Fixpoint eremove (k : string) (es : list (string * item)) : list (string * item) :=
  match es with
  | [] => []
  | (k', it) :: rest => if String.eqb k k' then rest else (k', it) :: eremove k rest
  end.

Definition tget (k : string) (t : table) : option item := eget k (entries t).
Definition tinsert (k : string) (it : item) (t : table) : table := map_entries (einsert k it) t.
Definition tmodify (k : string) (f : item -> item) (t : table) : table := map_entries (emodify k f) t.
Definition tremove (k : string) (t : table) : table := map_entries (eremove k) t.

(** [Table::contains_key] *)
Definition contains_key (k : string) (t : table) : bool :=
  match tget k t with Some _ => true | None => false end.

(** [entry(k).or_insert(it)]: inserts [it] only when [k] is vacant. *)
Definition entry_or_insert (k : string) (it : item) (t : table) : table :=
  match tget k t with Some _ => t | None => tinsert k it t end.

(** [if t.get(k).is_none() { t.insert(k, table()) }] *)
Definition ensure_table (k : string) (t : table) : table :=
  match tget k t with None => tinsert k (ItemTable new_table) t | Some _ => t end.

(** [if let Some(x) = t.get_mut(k) { if let Some(xt) = x.as_table_mut() { f xt } }] *)
Definition with_table_mut (k : string) (f : table -> table) (t : table) : table :=
  tmodify k (fun it => match it with ItemTable st => ItemTable (f st) | _ => it end) t.

(** [if let Some(a) = item.as_array_mut() { f a }] on the entry [k]. *)
Definition with_array_mut (k : string) (f : list value -> list value) (t : table) : table :=
  tmodify k (fun it => match it with ItemValue (VArray a) => ItemValue (VArray (f a)) | _ => it end) t.

(** ** [Table::sort_values_by] *)

(** Rust's stable [slice::sort_by] on slices of at most 20 elements (the
    length under which both the merge sort and the driftsort of the
    standard library run [insertion_sort_shift_left]): every element in
    turn is shifted left while it is strictly less than its left
    neighbour.  [insert_tail] works on the sorted prefix kept reversed. *)
Fixpoint insert_tail {A : Type} (is_less : A -> A -> bool) (x : A) (rprefix : list A) : list A :=
  match rprefix with
  | [] => [x]
  | y :: rest => if is_less x y then y :: insert_tail is_less x rest else x :: rprefix
  end.

Definition insertion_sort {A : Type} (is_less : A -> A -> bool) (l : list A) : list A :=
  rev (fold_left (fun acc x => insert_tail is_less x acc) l []).

Definition is_lt (c : comparison) : bool :=
  match c with Lt => true | _ => false end.

(** toml_edit's [Table::sort_values_by_internal] wraps the user comparator
    in [modified_cmp], which hands it every entry, sub-tables and arrays of
    tables included; the comparator of this program looks at the keys only. *)
Definition modified_cmp (compare : string -> string -> comparison)
    (a b : string * item) : comparison :=
  compare (fst a) (fst b).

(** [sort_values_by_internal]: sort the entries, then recurse into the
    dotted sub-tables.  The recursion is written on the entries before the
    sort, which gives the same list since the comparator sees only the
    keys, which the recursion keeps (lemma
    [sort_values_by_internal_source_order] below). *)
Fixpoint sort_values_by_internal (compare : string -> string -> comparison) (t : table) : table :=
  match t with
  | Table i d es =>
      let fix go (es : list (string * item)) : list (string * item) :=
        match es with
        | [] => []
        | (k, it) :: rest =>
            (k, match it with
                | ItemTable t' =>
                    match t' with
                    | Table _ true _ => ItemTable (sort_values_by_internal compare t')
                    | Table _ false _ => it
                    end
                | _ => it
                end) :: go rest
        end in
      Table i d (insertion_sort (fun a b => is_lt (modified_cmp compare a b)) (go es))
  end.

Definition sort_values_by (compare : string -> string -> comparison) (t : table) : table :=
  sort_values_by_internal compare t.

(** The per-entry part of [sort_values_by_internal]. *)
Definition sort_item (compare : string -> string -> comparison) (it : item) : item :=
  match it with
  | ItemTable t' =>
      match t' with
      | Table _ true _ => ItemTable (sort_values_by_internal compare t')
      | Table _ false _ => it
      end
  | _ => it
  end.

Definition sort_entry (compare : string -> string -> comparison) (e : string * item) : string * item :=
  (fst e, sort_item compare (snd e)).

Definition entry_less (compare : string -> string -> comparison) (a b : string * item) : bool :=
  is_lt (modified_cmp compare a b).

(** ** [modify_pyproject_toml] *)

(** The configuration as [uvinit.rs] reads it: besides the fields declared
    in config.rs, [modify_pyproject_toml] reads [enable_pytest_asyncio]
    and [enable_bandit] (and the test module builds the struct with them). *)
Record UvinitConfig := {
  skip_dirs : list string;
  add_hatch_vcs : bool;
  enable_dynamic_version : bool;
  additional_requires : list string;
  enable_pytest_asyncio : bool;
  enable_bandit : bool
}.

(** The comparator of step 1: [dynamic] is less than every key but
    [version]; everything else is [Equal]. *)
Definition REPLACE_KEY_VER : string := "version".
Definition REPLACE_KEY_DYN : string := "dynamic".

Definition dynamic_cmp (key1 key2 : string) : comparison :=
  if String.eqb key1 REPLACE_KEY_DYN && negb (String.eqb key2 REPLACE_KEY_VER) then Lt else Eq.

(** [toml_edit::value(dynamic_array)] with [dynamic_array = ["version"]] *)
Definition dynamic_item : item := ItemValue (VArray [VString "version"]).

Definition replace_version (project_table : table) : table :=
  tremove "version" (sort_values_by dynamic_cmp (tinsert "dynamic" dynamic_item project_table)).

(** 1. Replace project.version with project.dynamic = ["version"] *)
Definition step_dynamic (config : UvinitConfig) (doc : table) : table :=
  if enable_dynamic_version config then with_table_mut "project" replace_version doc else doc.

(** [v.as_str() == Some(s)] *)
Definition str_eq (s : string) (v : value) : bool :=
  match v with VString s' => String.eqb s' s | _ => false end.

(** One iteration of the append loops: push [s] unless some element is
    the string [s]. *)
Definition push_if_absent (arr : list value) (s : string) : list value :=
  if existsb (str_eq s) arr then arr else arr ++ [VString s].

Definition push_missing (to_add : list string) (arr : list value) : list value :=
  fold_left push_if_absent to_add arr.

(** [t.entry(k).or_insert(value(Array::new()))] then the append loop. *)
Definition add_to_array (k : string) (to_add : list string) (t : table) : table :=
  with_array_mut k (push_missing to_add) (entry_or_insert k (ItemValue (VArray [])) t).

Definition requires_to_add (config : UvinitConfig) : list string :=
  (if add_hatch_vcs config then ["hatch-vcs"] else []) ++ additional_requires config.

(** 2. Add to build-system.requires *)
Definition step_requires (config : UvinitConfig) (doc : table) : table :=
  if add_hatch_vcs config || negb (match additional_requires config with [] => true | _ => false end)
  then with_table_mut "build-system" (add_to_array "requires" (requires_to_add config)) doc
  else doc.

(** The nested-table pattern of steps 3-5: insert an empty table under [k]
    if the key is vacant, then edit it when it is a table. *)
Definition nested_table (k : string) (f : table -> table) (t : table) : table :=
  with_table_mut k f (ensure_table k t).

(** 3. Add tool.hatch.version.source = "vcs" *)
Definition edit_hatch_version (version_table : table) : table :=
  tinsert "source" (ItemValue (VString "vcs")) (set_implicit true version_table).
Definition edit_hatch (hatch_table : table) : table :=
  nested_table "version" edit_hatch_version (set_implicit true hatch_table).
Definition edit_tool_hatch (tool_table : table) : table :=
  nested_table "hatch" edit_hatch (set_implicit true tool_table).

Definition step_hatch (config : UvinitConfig) (doc : table) : table :=
  if enable_dynamic_version config then nested_table "tool" edit_tool_hatch doc else doc.

(** 4. Add tool.pytest.ini_options.asyncio_mode = "auto" *)
Definition edit_ini_options (ini_options_table : table) : table :=
  tinsert "asyncio_mode" (ItemValue (VString "auto")) (set_implicit true ini_options_table).
Definition edit_pytest (pytest_table : table) : table :=
  nested_table "ini_options" edit_ini_options (set_implicit true pytest_table).
Definition edit_tool_pytest (tool_table : table) : table :=
  nested_table "pytest" edit_pytest (set_implicit true tool_table).

Definition step_pytest (config : UvinitConfig) (doc : table) : table :=
  if enable_pytest_asyncio config then nested_table "tool" edit_tool_pytest doc else doc.

(** 5. Add tool.bandit (the bandit table itself is not made implicit) *)
Definition skips_to_add : list string := ["B101"].
Definition exclude_dirs_to_add : list string := [".venv"; "venv"; "tests"].
Definition edit_bandit (bandit_table : table) : table :=
  add_to_array "exclude_dirs" exclude_dirs_to_add (add_to_array "skips" skips_to_add bandit_table).
Definition edit_tool_bandit (tool_table : table) : table :=
  nested_table "bandit" edit_bandit (set_implicit true tool_table).

Definition step_bandit (config : UvinitConfig) (doc : table) : table :=
  if enable_bandit config then nested_table "tool" edit_tool_bandit doc else doc.

(** The in-memory edit of [modify_pyproject_toml], steps 1 to 5 in order. *)
Definition transform (config : UvinitConfig) (doc : table) : table :=
  step_bandit config (step_pytest config (step_hatch config (step_requires config (step_dynamic config doc)))).

(** [modify_pyproject_toml] as a whole: read, parse, edit, serialize,
    write.  Reading and writing are the file's content and a [write]
    action; [parse] and [to_string] are toml_edit's. *)
Definition rendered (parse : string -> result table) (to_string : table -> string)
    (content : result string) (config : UvinitConfig) : result string :=
  match content with
  | Err e => Err e
  | Ok s =>
      match parse s with
      | Err _ => Err "Failed to parse TOML document"
      | Ok doc => Ok (to_string (transform config doc))
      end
  end.

Definition modify_pyproject_toml (parse : string -> result table) (to_string : table -> string)
    (write : string -> result unit) (content : result string) (config : UvinitConfig) : result unit :=
  match rendered parse to_string content config with
  | Err e => Err e
  | Ok out => write out
  end.

(** ** toml_edit's document parser and the byte order mark *)

(** The UTF-8 byte order mark, the bytes EF BB BF. *)
Definition utf8_bom : string :=
  String (Ascii.ascii_of_nat 239)
    (String (Ascii.ascii_of_nat 187) (String (Ascii.ascii_of_nat 191) EmptyString)).

(** toml_edit's document grammar starts with an optional byte order mark,
    which it skips: the document is parsed from the text after it, and no
    part of the document records it. *)
Definition strip_bom (s : string) : string :=
  if String.prefix utf8_bom s then substring 3 (String.length s - 3) s else s.

(** [content.parse::<DocumentMut>()], the parser of the text after the
    byte order mark being a parameter. *)
Definition parse_document (parse_body : string -> result table) (s : string) : result table :=
  parse_body (strip_bom s).

(** A one-line manifest, [[project]], behind a byte order mark. *)
Definition bom_manifest : string := utf8_bom ++ "[project]".

(** A stand-in for toml_edit on [[project]]: the document holds the text it
    was parsed from in one raw entry, and printing gives that text back,
    as toml_edit does for this input. *)
Definition raw_parse (s : string) : result table :=
  Ok (Table false false [("raw", ItemValue (VOther s))]).

Definition raw_print (t : table) : string :=
  match tget "raw" t with Some (ItemValue (VOther s)) => s | _ => "" end.

(** ** [has_project_dynamic] *)

Definition has_project_dynamic_doc (doc : table) : bool :=
  match tget "project" doc with
  | Some (ItemTable project_table) => contains_key "dynamic" project_table
  | _ => false
  end.

Definition has_project_dynamic (parse : string -> result table) (content : result string) : result bool :=
  match content with
  | Err e => Err e
  | Ok s =>
      match parse s with
      | Err _ => Err "Failed to parse TOML"
      | Ok doc => Ok (has_project_dynamic_doc doc)
      end
  end.

(** ** [find_pyproject_files] *)

(** A directory tree as the walk sees it: [is_file] entries, [is_dir]
    entries (with whether [read_dir] succeeds on them) and entries that are
    neither.  File names are the bytes of an [OsStr]. *)
Inductive node : Type :=
| File (name : list byte)
| Dir (name : list byte) (readable : bool) (children : list node)
| Other (name : list byte).

(** A path, as the components below the walk's root. *)
Definition path := list (list byte).

Fixpoint bytes_eqb (a b : list byte) : bool :=
  match a, b with
  | [], [] => true
  | x :: a', y :: b' => Byte.eqb x y && bytes_eqb a' b'
  | _, _ => false
  end.

Definition pyproject_name : list byte := list_byte_of_string "pyproject.toml".

(** UTF-8 validation as [OsStr::to_str] does it ([str::from_utf8]):
    no overlong forms, no surrogates, nothing above U+10FFFF. *)
Definition utf8_width (b : N) : nat :=
  if (b <? 128)%N then 1
  else if ((194 <=? b) && (b <=? 223))%N then 2
  else if ((224 <=? b) && (b <=? 239))%N then 3
  else if ((240 <=? b) && (b <=? 244))%N then 4
  else 0.

Definition utf8_cont (b : N) : bool := ((128 <=? b) && (b <=? 191))%N.

Definition utf8_second_ok (b0 b1 : N) : bool :=
  if (b0 =? 224)%N then ((160 <=? b1) && (b1 <=? 191))%N
  else if (b0 =? 237)%N then ((128 <=? b1) && (b1 <=? 159))%N
  else if (b0 =? 240)%N then ((144 <=? b1) && (b1 <=? 191))%N
  else if (b0 =? 244)%N then ((128 <=? b1) && (b1 <=? 143))%N
  else utf8_cont b1.

Fixpoint utf8_valid (bs : list byte) : bool :=
  match bs with
  | [] => true
  | b0 :: rest =>
      match utf8_width (Byte.to_N b0) with
      | 1 => utf8_valid rest
      | 2 =>
          match rest with
          | b1 :: r => utf8_cont (Byte.to_N b1) && utf8_valid r
          | _ => false
          end
      | 3 =>
          match rest with
          | b1 :: b2 :: r =>
              utf8_second_ok (Byte.to_N b0) (Byte.to_N b1) && utf8_cont (Byte.to_N b2)
              && utf8_valid r
          | _ => false
          end
      | 4 =>
          match rest with
          | b1 :: b2 :: b3 :: r =>
              utf8_second_ok (Byte.to_N b0) (Byte.to_N b1) && utf8_cont (Byte.to_N b2)
              && utf8_cont (Byte.to_N b3) && utf8_valid r
          | _ => false
          end
      | _ => false
      end
  end.

(** [path.file_name().and_then(|n| n.to_str())] *)
Definition to_str (name : list byte) : option (list byte) :=
  if utf8_valid name then Some name else None.

(** [find_pyproject_files_recursive]: [files] is the shared vector the
    matches are pushed to; [skip_dirs] holds the UTF-8 bytes of the
    configured names. *)
Fixpoint find_pyproject_files_recursive (dir : node) (prefix : path) (files : list path)
    (skip_dirs : list (list byte)) {struct dir} : result (list path) :=
  match dir with
  | Dir _ readable children =>
      if negb readable then Err "Failed to read directory"
      else
        let fix go (cs : list node) (files : list path) : result (list path) :=
          match cs with
          | [] => Ok files
          | c :: rest =>
              match c with
              | File nm =>
                  go rest (if bytes_eqb nm pyproject_name then files ++ [prefix ++ [nm]] else files)
              | Dir nm _ _ =>
                  match to_str nm with
                  | Some dir_name =>
                      if existsb (bytes_eqb dir_name) skip_dirs then go rest files
                      else
                        match find_pyproject_files_recursive c (prefix ++ [nm]) files skip_dirs with
                        | Err e => Err e
                        | Ok files' => go rest files'
                        end
                  | None => go rest files
                  end
              | Other _ => go rest files
              end
          end in
        go children files
  | _ => Ok []
  end.

Definition find_pyproject_files (root_dir : node) (skip_dirs : list (list byte)) : result (list path) :=
  find_pyproject_files_recursive root_dir [] [] skip_dirs.

(** The set the walk is claimed to return, following the claim's words:
    every [pyproject.toml] file below the root that lies under no
    directory whose name is in [skip_dirs]. *)
Fixpoint claimed_manifests (dir : node) (prefix : path) (skip_dirs : list (list byte)) : list path :=
  match dir with
  | Dir _ _ children =>
      let fix go (cs : list node) : list path :=
        match cs with
        | [] => []
        | c :: rest =>
            match c with
            | File nm => (if bytes_eqb nm pyproject_name then [prefix ++ [nm]] else []) ++ go rest
            | Dir nm _ _ =>
                (if existsb (bytes_eqb nm) skip_dirs then []
                 else claimed_manifests c (prefix ++ [nm]) skip_dirs) ++ go rest
            | Other _ => go rest
            end
        end in
      go children
  | _ => []
  end.

(** ** src/config.rs *)

Module Config.

(** [UvinitConfig] as config.rs declares it. *)
Record UvinitConfig := {
  skip_dirs : list string;
  add_hatch_vcs : bool;
  enable_dynamic_version : bool;
  additional_requires : list string
}.

Definition default_skip_dirs : list string :=
  [".git"; ".venv"; "venv"; "__pycache__"; ".pytest_cache"; "node_modules"; ".tox";
   "build"; "dist"; ".eggs"; "target"].

(** [impl Default for UvinitConfig] *)
Definition default : UvinitConfig :=
  {| skip_dirs := default_skip_dirs; add_hatch_vcs := true; enable_dynamic_version := true;
     additional_requires := [] |}.

Definition strings_value (l : list string) : value := VArray (map VString l).

(** serde's derived [Serialize]: one key per declared field, in order. *)
Definition serialize (c : UvinitConfig) : list (string * value) :=
  [("skip_dirs", strings_value (skip_dirs c));
   ("add_hatch_vcs", VBoolean (add_hatch_vcs c));
   ("enable_dynamic_version", VBoolean (enable_dynamic_version c));
   ("additional_requires", strings_value (additional_requires c))].

Fixpoint vget (k : string) (kvs : list (string * value)) : option value :=
  match kvs with
  | [] => None
  | (k', v) :: rest => if String.eqb k k' then Some v else vget k rest
  end.

Fixpoint as_strings (vs : list value) : option (list string) :=
  match vs with
  | [] => Some []
  | VString s :: rest => option_map (cons s) (as_strings rest)
  | _ => None
  end.

Definition field_bool (k : string) (dflt : bool) (kvs : list (string * value)) : result bool :=
  match vget k kvs with
  | None => Ok dflt
  | Some (VBoolean b) => Ok b
  | Some _ => Err "invalid type: expected a boolean"
  end.

Definition field_strings (k : string) (dflt : list string) (kvs : list (string * value))
    : result (list string) :=
  match vget k kvs with
  | None => Ok dflt
  | Some (VArray vs) =>
      match as_strings vs with Some l => Ok l | None => Err "invalid type: expected a string" end
  | Some _ => Err "invalid type: expected a sequence"
  end.

(** serde's derived [Deserialize] of the [uvinit] section: each declared
    field from its key, or its [#[serde(default)]] when absent; keys that
    name no field are ignored (no [deny_unknown_fields]). *)
Definition deserialize (kvs : list (string * value)) : result UvinitConfig :=
  match field_strings "skip_dirs" default_skip_dirs kvs,
        field_bool "add_hatch_vcs" true kvs,
        field_bool "enable_dynamic_version" true kvs,
        field_strings "additional_requires" [] kvs with
  | Ok sd, Ok ah, Ok edv, Ok ar =>
      Ok {| skip_dirs := sd; add_hatch_vcs := ah; enable_dynamic_version := edv;
            additional_requires := ar |}
  | Err e, _, _, _ | _, Err e, _, _ | _, _, Err e, _ | _, _, _, Err e => Err e
  end.

(** [CargonewConfig] and [TuarinewConfig] as config.rs declares them. *)
Record CargonewConfig := {
  default_template : string;
  init_git : bool
}.

Record TuarinewConfig := {
  default_frontend : string;
  use_typescript : bool
}.

(** [Config]: the three sections of the settings file. *)
Record Config := {
  uvinit : UvinitConfig;
  cargonew : CargonewConfig;
  tuarinew : TuarinewConfig
}.

Definition default_cargo_template : string := "bin".
Definition default_tauri_frontend : string := "vanilla".

(** [impl Default for CargonewConfig] and [impl Default for TuarinewConfig] *)
Definition cargonew_default : CargonewConfig :=
  {| default_template := default_cargo_template; init_git := true |}.

Definition tuarinew_default : TuarinewConfig :=
  {| default_frontend := default_tauri_frontend; use_typescript := true |}.

(** [#[derive(Default)]] on [Config]: each section's own default. *)
Definition default_config : Config :=
  {| uvinit := default; cargonew := cargonew_default; tuarinew := tuarinew_default |}.

Definition field_string (k : string) (dflt : string) (kvs : list (string * value)) : result string :=
  match vget k kvs with
  | None => Ok dflt
  | Some (VString s) => Ok s
  | Some _ => Err "invalid type: expected a string"
  end.

Definition serialize_cargonew (c : CargonewConfig) : list (string * value) :=
  [("default_template", VString (default_template c)); ("init_git", VBoolean (init_git c))].

Definition deserialize_cargonew (kvs : list (string * value)) : result CargonewConfig :=
  match field_string "default_template" default_cargo_template kvs,
        field_bool "init_git" true kvs with
  | Ok t, Ok g => Ok {| default_template := t; init_git := g |}
  | Err e, _ | _, Err e => Err e
  end.

Definition serialize_tuarinew (c : TuarinewConfig) : list (string * value) :=
  [("default_frontend", VString (default_frontend c)); ("use_typescript", VBoolean (use_typescript c))].

Definition deserialize_tuarinew (kvs : list (string * value)) : result TuarinewConfig :=
  match field_string "default_frontend" default_tauri_frontend kvs,
        field_bool "use_typescript" true kvs with
  | Ok f, Ok t => Ok {| default_frontend := f; use_typescript := t |}
  | Err e, _ | _, Err e => Err e
  end.

(** A field of [Config] is a section: a TOML table (standard or inline,
    both a map to serde, written [VInlineTable] here).  The fields of
    [Config] carry no [#[serde(default)]], so a missing section is an
    error. *)
Definition section (k : string) (kvs : list (string * value)) : result (list (string * value)) :=
  match vget k kvs with
  | None => Err ("missing field `" ++ k ++ "`")
  | Some (VInlineTable s) => Ok s
  | Some _ => Err "invalid type: expected struct"
  end.

Definition serialize_config (c : Config) : list (string * value) :=
  [("uvinit", VInlineTable (serialize (uvinit c)));
   ("cargonew", VInlineTable (serialize_cargonew (cargonew c)));
   ("tuarinew", VInlineTable (serialize_tuarinew (tuarinew c)))].

(** serde's derived [Deserialize] of [Config]; the checks are made in one
    fixed order, so only which inputs fail, not which message they give,
    follows serde. *)
Definition deserialize_config (kvs : list (string * value)) : result Config :=
  match section "uvinit" kvs, section "cargonew" kvs, section "tuarinew" kvs with
  | Ok u, Ok c, Ok t =>
      match deserialize u, deserialize_cargonew c, deserialize_tuarinew t with
      | Ok u', Ok c', Ok t' => Ok {| uvinit := u'; cargonew := c'; tuarinew := t' |}
      | Err e, _, _ | _, Err e, _ | _, _, Err e => Err e
      end
  | Err e, _, _ | _, Err e, _ | _, _, Err e => Err e
  end.

(** The settings file [~/.config/post-init.toml] as [load_config] finds
    it: absent, present but unreadable ([read_to_string] fails), or its
    text. *)
Inductive file_state : Type :=
| Absent
| Unreadable (e : string)
| Contents (text : string).

(** The parts of the file system [load_config] and [save_config] touch:
    [dirs::home_dir()], the settings file, and whether [create_dir_all]
    on [~/.config] and the [fs::write] of the file succeed. *)
Record ConfigFs := {
  home_dir : option string;
  config_file : file_state;
  dir_ok : bool;
  write_ok : bool
}.

Definition config_dir (home : string) : string := home ++ "/.config".
Definition config_path (home : string) : string := config_dir home ++ "/post-init.toml".

Definition get_config_path (fs : ConfigFs) : result string :=
  match home_dir fs with
  | None => Err "Could not find home directory"
  | Some h => Ok (config_path h)
  end.

(** [save_config]: [toml::to_string_pretty] is a parameter (it cannot fail
    on [Config], whose top level holds tables only); the error of each
    step is its [with_context] message. *)
Definition save_config (to_string_pretty : list (string * value) -> string)
    (fs : ConfigFs) (config : Config) : ConfigFs * result unit :=
  match home_dir fs with
  | None => (fs, Err "Could not find home directory")
  | Some h =>
      if negb (dir_ok fs) then (fs, Err ("Failed to create config directory: " ++ config_dir h))
      else
        let content := to_string_pretty (serialize_config config) in
        if negb (write_ok fs) then (fs, Err ("Failed to write config file: " ++ config_path h))
        else ({| home_dir := home_dir fs; config_file := Contents content;
                 dir_ok := dir_ok fs; write_ok := write_ok fs |}, Ok tt)
  end.

(** [toml::from_str::<Config>]: the TOML parser (a parameter, giving the
    document as serde sees it) followed by the derived [Deserialize]. *)
Definition from_str (parse_toml : string -> result (list (string * value))) (content : string)
    : result Config :=
  match parse_toml content with
  | Err e => Err e
  | Ok kvs => deserialize_config kvs
  end.

Definition load_config (to_string_pretty : list (string * value) -> string)
    (parse_toml : string -> result (list (string * value))) (fs : ConfigFs)
    : ConfigFs * result Config :=
  match get_config_path fs with
  | Err e => (fs, Err e)
  | Ok path =>
      match config_file fs with
      | Absent =>
          let default_config := default_config in
          match save_config to_string_pretty fs default_config with
          | (fs', Err e) => (fs', Err e)
          | (fs', Ok _) => (fs', Ok default_config)
          end
      | Unreadable _ => (fs, Err ("Failed to read config file: " ++ path))
      | Contents content =>
          (fs, match from_str parse_toml content with
               | Ok config => Ok config
               | Err _ => Err "Failed to parse config file"
               end)
      end
  end.

End Config.

(** ** [show_config] (commands/config.rs) *)

(** The lines printed and the outcome; [to_string_pretty] and the TOML
    parser are the parameters of [Config.load_config]. *)
Definition show_config (to_string_pretty : list (string * value) -> string)
    (parse_toml : string -> result (list (string * value))) (fs : Config.ConfigFs)
    (show_path : bool) : Config.ConfigFs * list string * result unit :=
  match Config.get_config_path fs with
  | Err e => (fs, [], Err e)
  | Ok config_path =>
      if show_path then (fs, [("📄 Config file: " ++ config_path)%string], Ok tt)
      else
        match Config.load_config to_string_pretty parse_toml fs with
        | (fs', Err e) => (fs', [], Err e)
        | (fs', Ok config) =>
            let config_str := to_string_pretty (Config.serialize_config config) in
            (fs', ["📄 Current configuration:"; config_str], Ok tt)
        end
  end.

(** ** [run_uvinit] and [main] *)

(** The collaborators of the orchestrator: loading the settings, the walk
    (given [skip_dirs]), the detector and the transformer per file, and
    the line read from standard input. *)
Record Env := {
  load_config : result Config.UvinitConfig;
  find_files : list string -> result (list string);
  check_dynamic : string -> result bool;
  stdin_line : result (list N);
  modify_file : string -> result unit
}.

(** What the run does besides printing: reading the confirmation line and
    calling [modify_pyproject_toml] on a file, with its outcome. *)
Inductive event : Type :=
| ReadConfirmation
| Modified (file : string) (outcome : result unit).

(** [char::is_whitespace]: the Unicode White_Space code points. *)
Definition is_whitespace (c : N) : bool :=
  ((9 <=? c) && (c <=? 13))%N || (c =? 32)%N || (c =? 133)%N || (c =? 160)%N
  || (c =? 5760)%N || ((8192 <=? c) && (c <=? 8202))%N || (c =? 8232)%N
  || (c =? 8233)%N || (c =? 8239)%N || (c =? 8287)%N || (c =? 12288)%N.

Fixpoint trim_start (s : list N) : list N :=
  match s with
  | c :: rest => if is_whitespace c then trim_start rest else s
  | [] => []
  end.

Definition trim_end (s : list N) : list N := rev (trim_start (rev s)).

(** [str::trim] on a string of code points. *)
Definition trim (s : list N) : list N := trim_end (trim_start s).

(** [str::to_lowercase], with the ASCII case mapping: no code point other
    than 'Y' lowercases to a string starting with 'y', which is all the
    caller looks at. *)
Definition to_lowercase (s : list N) : list N :=
  map (fun c => if ((65 <=? c) && (c <=? 90))%N then (c + 32)%N else c) s.

Definition starts_with (c : N) (s : list N) : bool :=
  match s with
  | x :: _ => (x =? c)%N
  | [] => false
  end.

Definition queued (env : Env) (files : list string) : list string :=
  filter (fun f => match check_dynamic env f with Ok false => true | _ => false end) files.

Definition process_files (env : Env) (files : list string) : list event :=
  map (fun f => Modified f (modify_file env f)) files.

Definition run_uvinit (env : Env) (yes : bool) : list event * result unit :=
  match load_config env with
  | Err e => ([], Err e)
  | Ok config =>
      match find_files env (Config.skip_dirs config) with
      | Err e => ([], Err e)
      | Ok pyproject_files =>
          match pyproject_files with
          | [] => ([], Ok tt)
          | _ =>
              let files_to_process := queued env pyproject_files in
              match files_to_process with
              | [] => ([], Ok tt)
              | _ =>
                  if negb yes then
                    match stdin_line env with
                    | Err e => ([ReadConfirmation], Err e)
                    | Ok input =>
                        if negb (starts_with 121 (to_lowercase (trim input)))
                        then ([ReadConfirmation], Ok tt)
                        else (ReadConfirmation :: process_files env files_to_process, Ok tt)
                    end
                  else (process_files env files_to_process, Ok tt)
              end
          end
      end
  end.

(** [main] on the [uvinit] subcommand: [Result<()>] returned from [main]
    exits with 0 on [Ok] and 1 on [Err]. *)
Definition main_exit_code (env : Env) (yes : bool) : nat :=
  match snd (run_uvinit env yes) with
  | Ok _ => 0
  | Err _ => 1
  end.


(** ** Concrete inputs (the manifests of the test module and a few more) *)

Definition vstr (s : string) : item := ItemValue (VString s).

(** The manifest of [test_modify_pyproject_toml]. *)
Definition test_doc : table :=
  Table false false
    [("project", ItemTable (Table false false
        [("name", vstr "test-project"); ("version", vstr "0.1.0");
         ("description", vstr "A test project");
         ("dependencies", ItemValue (VArray [VString "requests"]))]));
     ("build-system", ItemTable (Table false false
        [("requires", ItemValue (VArray [VString "hatchling"]));
         ("build-backend", vstr "hatchling.build")]))].

(** The settings of that test, with the pytest and bandit edits on. *)
Definition test_config : UvinitConfig :=
  {| skip_dirs := []; add_hatch_vcs := true; enable_dynamic_version := true;
     additional_requires := ["setuptools-scm"]; enable_pytest_asyncio := true;
     enable_bandit := true |}.

(** The manifest of [test_modify_pyproject_toml_with_existing_dynamic]. *)
Definition existing_dynamic_doc : table :=
  Table false false
    [("project", ItemTable (Table false false
        [("name", vstr "test-project");
         ("dynamic", ItemValue (VArray [VString "version"; VString "description"]));
         ("dependencies", ItemValue (VArray [VString "requests"]))]));
     ("build-system", ItemTable (Table false false
        [("requires", ItemValue (VArray [VString "hatchling"; VString "hatch-vcs"]));
         ("build-backend", vstr "hatchling.build")]));
     ("tool", ItemTable (Table true false
        [("hatch", ItemTable (Table true false
           [("version", ItemTable (Table false false [("source", vstr "vcs")]))]))]))].

(** [[project]] with [name] before [version], and no [build-system]. *)
Definition name_version_doc : table :=
  Table false false
    [("project", ItemTable (Table false false [("name", vstr "x"); ("version", vstr "0.1.0")]))].

(** Only the dynamic-version edits on. *)
Definition dynamic_only_config : UvinitConfig :=
  {| skip_dirs := []; add_hatch_vcs := false; enable_dynamic_version := true;
     additional_requires := []; enable_pytest_asyncio := false; enable_bandit := false |}.

(** The settings of [test_modify_pyproject_toml_disabled_features]. *)
Definition disabled_config : UvinitConfig :=
  {| skip_dirs := []; add_hatch_vcs := false; enable_dynamic_version := false;
     additional_requires := []; enable_pytest_asyncio := false; enable_bandit := false |}.

(** The same run environment, with another outcome of
    [modify_pyproject_toml] per file. *)
Definition with_modify (env : Env) (m : string -> result unit) : Env :=
  {| load_config := load_config env; find_files := find_files env;
     check_dynamic := check_dynamic env; stdin_line := stdin_line env;
     modify_file := m |}.

(** The first non-whitespace character of the line is 'y' or 'Y'. *)
Definition confirms (input : list N) : bool :=
  match trim_start input with
  | c :: _ => (c =? 121)%N || (c =? 89)%N
  | [] => false
  end.

(** One manifest under [pkg] that needs processing and whose rewrite fails. *)
Definition failing_write_env : Env :=
  {| load_config := Ok Config.default;
     find_files := fun _ => Ok ["pkg/pyproject.toml"];
     check_dynamic := fun _ => Ok false;
     stdin_line := Ok [121; 10]%N;
     modify_file := fun _ => Err "Permission denied (os error 13)" |}.

(** The same manifest, rewritten fine, with the line " y" typed at the prompt. *)
Definition space_y_env : Env :=
  {| load_config := Ok Config.default;
     find_files := fun _ => Ok ["pkg/pyproject.toml"];
     check_dynamic := fun _ => Ok false;
     stdin_line := Ok [32; 121; 10]%N;
     modify_file := fun _ => Ok tt |}.

(** A root holding a readable directory whose name is the single byte
    0xFF (not UTF-8), which holds a [pyproject.toml]. *)
Definition non_utf8_tree : node :=
  Dir [] true [Dir [xff] true [File pyproject_name]].

(** ** Invariants the proofs about repeated runs use *)

(** The entry [k] exists, and satisfies [P] when it is a table. *)
Definition sub_ok (k : string) (P : table -> Prop) (t : table) : Prop :=
  tget k t <> None /\ forall st, tget k t = Some (ItemTable st) -> P st.

(** The entry [k] exists, and already holds every string of [to_add]
    when it is an array. *)
Definition arr_ok (k : string) (to_add : list string) (t : table) : Prop :=
  tget k t <> None /\ forall a, tget k t = Some (ItemValue (VArray a)) -> push_missing to_add a = a.

Definition version_ok (t : table) : Prop :=
  is_implicit t = true /\ tget "source" t = Some (ItemValue (VString "vcs")).
Definition hatch_ok (t : table) : Prop := is_implicit t = true /\ sub_ok "version" version_ok t.
Definition tool_hatch_ok (t : table) : Prop := is_implicit t = true /\ sub_ok "hatch" hatch_ok t.

Definition ini_options_ok (t : table) : Prop :=
  is_implicit t = true /\ tget "asyncio_mode" t = Some (ItemValue (VString "auto")).
Definition pytest_ok (t : table) : Prop := is_implicit t = true /\ sub_ok "ini_options" ini_options_ok t.
Definition tool_pytest_ok (t : table) : Prop := is_implicit t = true /\ sub_ok "pytest" pytest_ok t.

Definition bandit_ok (t : table) : Prop :=
  arr_ok "skips" skips_to_add t /\ arr_ok "exclude_dirs" exclude_dirs_to_add t.
Definition tool_bandit_ok (t : table) : Prop := is_implicit t = true /\ sub_ok "bandit" bandit_ok t.

Definition requires_gate (config : UvinitConfig) : bool :=
  add_hatch_vcs config || negb (match additional_requires config with [] => true | _ => false end).

Definition requires_ok (config : UvinitConfig) (doc : table) : Prop :=
  requires_gate config = true ->
  forall bt, tget "build-system" doc = Some (ItemTable bt) -> arr_ok "requires" (requires_to_add config) bt.

(** TOML keys are unique within a table: the parsed [project] table has
    no duplicate key. *)
Definition project_keys_unique (doc : table) : Prop :=
  forall pt, tget "project" doc = Some (ItemTable pt) -> NoDup (map fst (entries pt)).

Definition project_ok (doc : table) : Prop :=
  forall pt, tget "project" doc = Some (ItemTable pt) ->
    NoDup (map fst (entries pt)) /\ tget "dynamic" pt = Some dynamic_item /\ tget "version" pt = None.

(** ** The order step 1 leaves in the [project] table *)

(** [modified_cmp] with the comparator of step 1: it looks at the keys
    only. *)
Definition key_less (a b : string) : bool := is_lt (dynamic_cmp a b).

(** The keys before and after the first occurrence of [k]. *)
Fixpoint split_at_key (k : string) (l : list string) : option (list string * list string) :=
  match l with
  | [] => None
  | k' :: rest =>
      if String.eqb k' k then Some ([], rest)
      else match split_at_key k rest with
           | Some (a, b) => Some (k' :: a, b)
           | None => None
           end
  end.

(** The order step 1's sort gives the keys: [dynamic] moves to just
    after [version] when [version] comes before it, and to the front
    otherwise; every other key keeps its place. *)
Definition place_dynamic (ks : list string) : list string :=
  match split_at_key "dynamic" ks with
  | None => ks
  | Some (pre, post) =>
      match split_at_key "version" pre with
      | Some (p1, p2) => p1 ++ "version" :: "dynamic" :: p2 ++ post
      | None => "dynamic" :: pre ++ post
      end
  end.

(** A [project] table with a sub-table among its values, and [version]
    in the middle. *)
Definition urls_project : table :=
  Table false false
    [("name", vstr "x"); ("urls", ItemTable (Table false false [("home", vstr "h")]));
     ("version", vstr "0.1.0"); ("license", vstr "MIT")].

Definition urls_doc : table := Table false false [("project", ItemTable urls_project)].

(** [build-system] with [requires = "hatchling"], a string. *)
Definition string_requires_doc : table :=
  Table false false
    [("build-system", ItemTable (Table false false
        [("requires", vstr "hatchling"); ("build-backend", vstr "hatchling.build")]))].

(** A [tool] table holding the configuration of another tool. *)
Definition ruff_doc : table :=
  Table false false
    [("project", ItemTable (Table false false [("name", vstr "x")]));
     ("tool", ItemTable (Table true false
        [("ruff", ItemTable (Table false false [("line-length", ItemValue (VInteger 88))]))]))].

(** ** Trees the walk sees in full *)

(** Every directory of the tree can be read, and every directory below
    the root has a UTF-8 name. *)
Fixpoint walkable (n : node) : bool :=
  match n with
  | Dir _ readable children =>
      readable &&
      (fix go (cs : list node) : bool :=
         match cs with
         | [] => true
         | c :: rest =>
             match c with Dir nm _ _ => utf8_valid nm && walkable c | _ => true end && go rest
         end) children
  | _ => true
  end.

(** Induction on trees, with the hypothesis on every child. *)
Fixpoint node_ind_forall (P : node -> Prop)
    (HF : forall nm, P (File nm))
    (HD : forall nm r cs, Forall P cs -> P (Dir nm r cs))
    (HO : forall nm, P (Other nm)) (n : node) {struct n} : P n :=
  match n with
  | File nm => HF nm
  | Dir nm r cs =>
      HD nm r cs
        ((fix go (cs : list node) : Forall P cs :=
            match cs with
            | [] => Forall_nil P
            | c :: rest => Forall_cons c (node_ind_forall P HF HD HO c) (go rest)
            end) cs)
  | Other nm => HO nm
  end.

(** * Proofs *)

(** ** The IndexMap operations *)

Ltac key_cases k k' :=
  destruct (String.eqb_spec k k') as [<-|?]; simpl; rewrite ?String.eqb_refl.

Lemma eqb_neq_false (k k' : string) : k <> k' -> String.eqb k k' = false.
Proof. intros H. now apply String.eqb_neq. Qed.

Lemma eget_einsert_same k it es : eget k (einsert k it es) = Some it.
Proof.
  induction es as [|[k' it'] rest IH]; simpl; rewrite ?String.eqb_refl; auto.
  key_cases k k'; auto.
  try rewrite eqb_neq_false by auto. exact IH.
Qed.

Lemma eget_einsert_other k k' it es : k <> k' -> eget k (einsert k' it es) = eget k es.
Proof.
  intros Hne. induction es as [|[k'' it'] rest IH]; simpl.
  - now rewrite eqb_neq_false.
  - key_cases k' k''.
    + now rewrite eqb_neq_false.
    + destruct (String.eqb k k''); auto.
Qed.

Lemma eget_emodify_same k f es : eget k (emodify k f es) = option_map f (eget k es).
Proof.
  induction es as [|[k' it] rest IH]; simpl; auto.
  key_cases k k'; auto.
  try rewrite eqb_neq_false by auto. exact IH.
Qed.

Lemma eget_emodify_other k k' f es : k <> k' -> eget k (emodify k' f es) = eget k es.
Proof.
  intros Hne. induction es as [|[k'' it] rest IH]; simpl; auto.
  key_cases k' k''.
  - now rewrite eqb_neq_false.
  - destruct (String.eqb k k''); auto.
Qed.

Lemma emodify_id k f es :
  (forall it, eget k es = Some it -> f it = it) -> emodify k f es = es.
Proof.
  induction es as [|[k' it] rest IH]; simpl; intros H; auto.
  key_cases k k'.
  - now rewrite H.
  - try rewrite eqb_neq_false in H by auto. now rewrite IH.
Qed.

Lemma emodify_ext k f g es :
  (forall it, eget k es = Some it -> f it = g it) -> emodify k f es = emodify k g es.
Proof.
  induction es as [|[k' it] rest IH]; simpl; intros H; auto.
  key_cases k k'.
  - now rewrite H.
  - try rewrite eqb_neq_false in H by auto. now rewrite IH.
Qed.

Lemma einsert_id k it es : eget k es = Some it -> einsert k it es = es.
Proof.
  induction es as [|[k' it'] rest IH]; simpl; intros H; [discriminate|].
  key_cases k k'.
  - now inversion H.
  - try rewrite eqb_neq_false in H by auto. now rewrite IH.
Qed.

Lemma eremove_absent k es : eget k es = None -> eremove k es = es.
Proof.
  induction es as [|[k' it] rest IH]; simpl; intros H; auto.
  key_cases k k'; [discriminate|].
  try rewrite eqb_neq_false in H by auto. now rewrite IH.
Qed.

Lemma eget_eremove_other k k' es : k <> k' -> eget k (eremove k' es) = eget k es.
Proof.
  intros Hne. induction es as [|[k'' it] rest IH]; simpl; auto.
  key_cases k' k''.
  - now rewrite eqb_neq_false.
  - destruct (String.eqb k k''); auto.
Qed.

Lemma eget_None_notin k es : eget k es = None <-> ~ In k (map fst es).
Proof.
  induction es as [|[k' it] rest IH]; simpl; [tauto|].
  key_cases k k'.
  - split; [discriminate|]. intros H; exfalso; apply H; auto.
  - try rewrite eqb_neq_false by auto. rewrite IH. intuition.
Qed.

Lemma eget_Some_In k v es :
  NoDup (map fst es) -> eget k es = Some v <-> In (k, v) es.
Proof.
  induction es as [|[k' it] rest IH]; simpl; intros Hnd; [split; [discriminate|tauto]|].
  inversion Hnd as [|? ? Hnotin Hnd']; subst.
  key_cases k k'.
  - split.
    + intros H; inversion H; auto.
    + intros [H|H]; [now inversion H|].
      exfalso; apply Hnotin. now apply (in_map fst) in H.
  - try rewrite eqb_neq_false by auto. rewrite IH by auto.
    split; [auto|]. intros [H|H]; [inversion H; congruence|auto].
Qed.

Lemma keys_einsert k it es x :
  In x (map fst (einsert k it es)) -> x = k \/ In x (map fst es).
Proof.
  induction es as [|[k' it'] rest IH]; simpl.
  - intuition.
  - destruct (String.eqb k k'); simpl; intuition.
Qed.

Lemma NoDup_einsert k it es : NoDup (map fst es) -> NoDup (map fst (einsert k it es)).
Proof.
  induction es as [|[k' it'] rest IH]; simpl; intros Hnd.
  - constructor; [simpl; tauto|constructor].
  - inversion Hnd as [|? ? Hnotin Hnd']; subst.
    key_cases k k'.
    + now constructor.
    + constructor; [|now apply IH].
      intros Hin. apply keys_einsert in Hin. intuition.
Qed.

Lemma keys_eremove k es x : In x (map fst (eremove k es)) -> In x (map fst es).
Proof.
  induction es as [|[k' it] rest IH]; simpl; auto.
  destruct (String.eqb k k'); simpl; intuition.
Qed.

Lemma NoDup_eremove k es : NoDup (map fst es) -> NoDup (map fst (eremove k es)).
Proof.
  induction es as [|[k' it] rest IH]; simpl; intros Hnd; auto.
  inversion Hnd as [|? ? Hnotin Hnd']; subst.
  destruct (String.eqb k k'); auto.
  simpl. constructor; auto.
  intros Hin. apply keys_eremove in Hin. auto.
Qed.

Lemma eget_eremove_same k es : NoDup (map fst es) -> eget k (eremove k es) = None.
Proof.
  induction es as [|[k' it] rest IH]; simpl; intros Hnd; auto.
  inversion Hnd as [|? ? Hnotin Hnd']; subst.
  key_cases k k'.
  - now apply eget_None_notin.
  - try rewrite eqb_neq_false by auto. auto.
Qed.

Lemma eget_perm k es es' :
  NoDup (map fst es) -> Permutation es es' -> eget k es = eget k es'.
Proof.
  intros Hnd Hp.
  assert (Hnd' : NoDup (map fst es')).
  { eapply Permutation_NoDup; [|exact Hnd]. now apply Permutation_map. }
  destruct (eget k es) as [v|] eqn:E.
  - symmetry. apply eget_Some_In; auto.
    apply eget_Some_In in E; auto. eapply Permutation_in; eauto.
  - symmetry. apply eget_None_notin. apply eget_None_notin in E.
    intros Hin. apply E. eapply Permutation_in; [|exact Hin].
    apply Permutation_map. now apply Permutation_sym.
Qed.

(** ** The insertion sort *)

Lemma insert_tail_perm {A} (f : A -> A -> bool) x r : Permutation (insert_tail f x r) (x :: r).
Proof.
  induction r as [|y r IH]; simpl; auto.
  destruct (f x y); auto.
  eapply perm_trans; [apply perm_skip, IH|]. apply perm_swap.
Qed.

Lemma fold_insert_perm {A} (f : A -> A -> bool) l acc :
  Permutation (fold_left (fun acc x => insert_tail f x acc) l acc) (l ++ acc).
Proof.
  revert acc. induction l as [|x l IH]; intros acc; simpl; auto.
  eapply perm_trans; [apply IH|].
  eapply perm_trans; [apply Permutation_app_head, insert_tail_perm|].
  apply Permutation_sym, Permutation_middle.
Qed.

Lemma insertion_sort_perm {A} (f : A -> A -> bool) l : Permutation (insertion_sort f l) l.
Proof.
  unfold insertion_sort.
  eapply perm_trans; [apply Permutation_sym, Permutation_rev|].
  rewrite <- (app_nil_r l) at 2. apply fold_insert_perm.
Qed.

Lemma insertion_sort_map {A B} (f : A -> A -> bool) (f' : B -> B -> bool) (g : A -> B) l :
  (forall a b, f' (g a) (g b) = f a b) ->
  insertion_sort f' (map g l) = map g (insertion_sort f l).
Proof.
  intros Hfg. unfold insertion_sort. rewrite map_rev. f_equal.
  assert (Hins : forall x r, insert_tail f' (g x) (map g r) = map g (insert_tail f x r)).
  { intros x r. induction r as [|y r IH]; simpl; auto.
    rewrite Hfg. destruct (f x y); simpl; now rewrite ?IH. }
  change (@nil B) with (map g (@nil A)).
  generalize (@nil A) as acc.
  induction l as [|x l IH]; intros acc; simpl; auto.
  now rewrite Hins, IH.
Qed.

Lemma sort_values_by_internal_eq compare i d es :
  sort_values_by_internal compare (Table i d es)
  = Table i d (insertion_sort (entry_less compare) (map (sort_entry compare) es)).
Proof.
  simpl. f_equal. f_equal.
  induction es as [|[k it] rest IH]; simpl; auto.
  rewrite IH. reflexivity.
Qed.

Lemma modified_cmp_sort_entry compare a b :
  modified_cmp compare (sort_entry compare a) (sort_entry compare b) = modified_cmp compare a b.
Proof.
  destruct a as [ka ia], b as [kb ib]. unfold modified_cmp, sort_entry, sort_item; simpl.
  destruct ia as [|[? [] ?]|], ib as [|[? [] ?]|]; reflexivity.
Qed.

(** The order of the source: sort the entries first, then recurse into the
    dotted sub-tables. *)
Lemma sort_values_by_internal_source_order compare i d es :
  sort_values_by_internal compare (Table i d es)
  = Table i d (map (sort_entry compare) (insertion_sort (entry_less compare) es)).
Proof.
  rewrite sort_values_by_internal_eq. f_equal.
  apply insertion_sort_map. intros a b. unfold entry_less. now rewrite modified_cmp_sort_entry.
Qed.

Lemma keys_map_sort_entry compare es : map fst (map (sort_entry compare) es) = map fst es.
Proof. rewrite map_map. reflexivity. Qed.

Lemma eget_map_sort_entry compare k es :
  eget k (map (sort_entry compare) es) = option_map (sort_item compare) (eget k es).
Proof.
  induction es as [|[k' it] rest IH]; simpl; auto.
  destruct (String.eqb k k'); auto.
Qed.

(** ** Table-level operations *)

Lemma tget_tinsert_same k it t : tget k (tinsert k it t) = Some it.
Proof. destruct t; apply eget_einsert_same. Qed.

Lemma tget_tinsert_other k k' it t : k <> k' -> tget k (tinsert k' it t) = tget k t.
Proof. destruct t; apply eget_einsert_other. Qed.

Lemma tget_tmodify_same k f t : tget k (tmodify k f t) = option_map f (tget k t).
Proof. destruct t; apply eget_emodify_same. Qed.

Lemma tget_tmodify_other k k' f t : k <> k' -> tget k (tmodify k' f t) = tget k t.
Proof. destruct t; apply eget_emodify_other. Qed.

Lemma tget_set_implicit k b t : tget k (set_implicit b t) = tget k t.
Proof. now destruct t. Qed.

Lemma set_implicit_id t : is_implicit t = true -> set_implicit true t = t.
Proof. destruct t; simpl; intros ->; reflexivity. Qed.

Lemma tget_with_table_mut_other k k' f t : k <> k' -> tget k (with_table_mut k' f t) = tget k t.
Proof. apply tget_tmodify_other. Qed.

Lemma tget_ensure_table_other k k' t : k <> k' -> tget k (ensure_table k' t) = tget k t.
Proof.
  intros Hne. unfold ensure_table. destruct (tget k' t); auto.
  now apply tget_tinsert_other.
Qed.

Lemma tget_entry_or_insert_other k k' it t : k <> k' -> tget k (entry_or_insert k' it t) = tget k t.
Proof.
  intros Hne. unfold entry_or_insert. destruct (tget k' t); auto.
  now apply tget_tinsert_other.
Qed.

Lemma tget_nested_table_other k k' f t : k <> k' -> tget k (nested_table k' f t) = tget k t.
Proof.
  intros Hne. unfold nested_table, with_table_mut.
  rewrite tget_tmodify_other by auto. now apply tget_ensure_table_other.
Qed.

Lemma tget_add_to_array_other k k' l t : k <> k' -> tget k (add_to_array k' l t) = tget k t.
Proof.
  intros Hne. unfold add_to_array, with_array_mut.
  rewrite tget_tmodify_other by auto. now apply tget_entry_or_insert_other.
Qed.

Lemma is_implicit_tinsert k it t : is_implicit (tinsert k it t) = is_implicit t.
Proof. now destruct t. Qed.

Lemma is_implicit_nested_table k f t : is_implicit (nested_table k f t) = is_implicit t.
Proof.
  destruct t as [i d es]. unfold nested_table, ensure_table, with_table_mut.
  destruct (tget k (Table i d es)); reflexivity.
Qed.

Lemma is_implicit_add_to_array k l t : is_implicit (add_to_array k l t) = is_implicit t.
Proof.
  destruct t as [i d es]. unfold add_to_array, entry_or_insert, with_array_mut.
  destruct (tget k (Table i d es)); reflexivity.
Qed.

Lemma tget_nested_table_same k f t :
  tget k (nested_table k f t)
  = Some (match tget k t with
          | None => ItemTable (f new_table)
          | Some (ItemTable st) => ItemTable (f st)
          | Some it => it
          end).
Proof.
  unfold nested_table, ensure_table, with_table_mut.
  destruct (tget k t) as [it|] eqn:E.
  - rewrite tget_tmodify_same, E. reflexivity.
  - rewrite tget_tmodify_same, tget_tinsert_same. reflexivity.
Qed.

Lemma nested_table_id k f P t :
  sub_ok k P t -> (forall st, P st -> f st = st) -> nested_table k f t = t.
Proof.
  intros [Hne Hp] Hf. unfold nested_table, ensure_table.
  destruct (tget k t) as [it|] eqn:E; [|congruence].
  unfold with_table_mut, tmodify. destruct t as [i d es]. simpl. f_equal.
  apply emodify_id. intros it' Hit. unfold tget in E; simpl in E. rewrite E in Hit. inversion Hit; subst.
  destruct it'; auto. rewrite Hf; auto.
Qed.

Lemma nested_table_est k f P t : (forall st, P (f st)) -> sub_ok k P (nested_table k f t).
Proof.
  intros Hf. split; rewrite tget_nested_table_same; [discriminate|].
  intros st Hst. destruct (tget k t) as [[]|]; inversion Hst; subst; auto.
Qed.

Lemma nested_table_pres k f P t :
  sub_ok k P t -> (forall st, P st -> P (f st)) -> sub_ok k P (nested_table k f t).
Proof.
  intros [Hne Hp] Hf. split; rewrite tget_nested_table_same; [discriminate|].
  intros st Hst. destruct (tget k t) as [[]|] eqn:E; inversion Hst; subst; auto.
  congruence.
Qed.

Lemma sub_ok_tget k P t t' : tget k t' = tget k t -> sub_ok k P t -> sub_ok k P t'.
Proof. intros E [H1 H2]. split; rewrite E; auto. Qed.

Lemma sub_ok_set_implicit k P b t : sub_ok k P t -> sub_ok k P (set_implicit b t).
Proof. apply sub_ok_tget, tget_set_implicit. Qed.

Lemma arr_ok_tget k l t t' : tget k t' = tget k t -> arr_ok k l t -> arr_ok k l t'.
Proof. intros E [H1 H2]. split; rewrite E; auto. Qed.

(** ** The append loops *)

Lemma existsb_push_if_absent x arr s :
  existsb (str_eq x) arr = true -> existsb (str_eq x) (push_if_absent arr s) = true.
Proof.
  intros H. unfold push_if_absent. destruct (existsb (str_eq s) arr); auto.
  rewrite existsb_app, H. reflexivity.
Qed.

Lemma push_if_absent_has arr s : existsb (str_eq s) (push_if_absent arr s) = true.
Proof.
  unfold push_if_absent. destruct (existsb (str_eq s) arr) eqn:E; auto.
  rewrite existsb_app. simpl. rewrite String.eqb_refl. apply orb_true_r.
Qed.

Lemma push_if_absent_present arr s : existsb (str_eq s) arr = true -> push_if_absent arr s = arr.
Proof. unfold push_if_absent. intros ->. reflexivity. Qed.

Lemma push_missing_mono x to_add arr :
  existsb (str_eq x) arr = true -> existsb (str_eq x) (push_missing to_add arr) = true.
Proof.
  revert arr. induction to_add as [|s to_add IH]; intros arr H; simpl; auto.
  apply IH, existsb_push_if_absent, H.
Qed.

Lemma push_missing_has x to_add arr :
  In x to_add -> existsb (str_eq x) (push_missing to_add arr) = true.
Proof.
  revert arr. induction to_add as [|s to_add IH]; intros arr Hin; simpl in *; [tauto|].
  destruct Hin as [<-|Hin]; auto.
  apply push_missing_mono, push_if_absent_has.
Qed.

Lemma push_missing_all_present to_add arr :
  (forall x, In x to_add -> existsb (str_eq x) arr = true) -> push_missing to_add arr = arr.
Proof.
  revert arr. induction to_add as [|s to_add IH]; intros arr H; simpl; auto.
  rewrite push_if_absent_present by (apply H; simpl; auto).
  apply IH. intros x Hx. apply H. simpl; auto.
Qed.

Lemma push_missing_idem to_add arr :
  push_missing to_add (push_missing to_add arr) = push_missing to_add arr.
Proof. apply push_missing_all_present. intros x Hx. now apply push_missing_has. Qed.

Lemma push_missing_prefix to_add arr : exists extra, push_missing to_add arr = arr ++ extra.
Proof.
  revert arr. induction to_add as [|s to_add IH]; intros arr; simpl.
  - exists []. now rewrite app_nil_r.
  - destruct (IH (push_if_absent arr s)) as [extra E]. rewrite E.
    unfold push_if_absent. destruct (existsb (str_eq s) arr).
    + now exists extra.
    + exists (VString s :: extra). now rewrite <- app_assoc.
Qed.

Lemma tget_add_to_array_same k l t :
  tget k (add_to_array k l t)
  = Some (match tget k t with
          | None => ItemValue (VArray (push_missing l []))
          | Some (ItemValue (VArray a)) => ItemValue (VArray (push_missing l a))
          | Some it => it
          end).
Proof.
  unfold add_to_array, entry_or_insert, with_array_mut.
  destruct (tget k t) as [it|] eqn:E.
  - rewrite tget_tmodify_same, E. reflexivity.
  - rewrite tget_tmodify_same, tget_tinsert_same. reflexivity.
Qed.

Lemma add_to_array_id k l t : arr_ok k l t -> add_to_array k l t = t.
Proof.
  intros [Hne Hp]. unfold add_to_array, entry_or_insert.
  destruct (tget k t) as [it|] eqn:E; [|congruence].
  unfold with_array_mut, tmodify. destruct t as [i d es]. simpl. f_equal.
  apply emodify_id. intros it' Hit. unfold tget in E; simpl in E. rewrite E in Hit. inversion Hit; subst.
  destruct it' as [[]| |]; auto. rewrite Hp; auto.
Qed.

Lemma add_to_array_est k l t : arr_ok k l (add_to_array k l t).
Proof.
  split; rewrite tget_add_to_array_same; [discriminate|].
  intros a Ha. destruct (tget k t) as [[[] | |]|]; inversion Ha; subst; auto;
    apply push_missing_idem.
Qed.

(** ** The steps touch only their own top-level key *)

Lemma tget_step_dynamic_other config k d : k <> "project" -> tget k (step_dynamic config d) = tget k d.
Proof. intros H. unfold step_dynamic. destruct (enable_dynamic_version config); auto. now apply tget_with_table_mut_other. Qed.

Lemma tget_step_requires_other config k d :
  k <> "build-system" -> tget k (step_requires config d) = tget k d.
Proof. intros H. unfold step_requires. destruct (_ || _); auto. now apply tget_with_table_mut_other. Qed.

Lemma tget_step_hatch_other config k d : k <> "tool" -> tget k (step_hatch config d) = tget k d.
Proof. intros H. unfold step_hatch. destruct (enable_dynamic_version config); auto. now apply tget_nested_table_other. Qed.

Lemma tget_step_pytest_other config k d : k <> "tool" -> tget k (step_pytest config d) = tget k d.
Proof. intros H. unfold step_pytest. destruct (enable_pytest_asyncio config); auto. now apply tget_nested_table_other. Qed.

Lemma tget_step_bandit_other config k d : k <> "tool" -> tget k (step_bandit config d) = tget k d.
Proof. intros H. unfold step_bandit. destruct (enable_bandit config); auto. now apply tget_nested_table_other. Qed.

Lemma tget_transform_project config d :
  tget "project" (transform config d) = tget "project" (step_dynamic config d).
Proof.
  unfold transform.
  rewrite tget_step_bandit_other, tget_step_pytest_other, tget_step_hatch_other,
    tget_step_requires_other by discriminate.
  reflexivity.
Qed.

(** ** Step 1 *)

Lemma replace_version_eq i d es :
  replace_version (Table i d es)
  = Table i d (eremove "version"
      (insertion_sort (entry_less dynamic_cmp)
         (map (sort_entry dynamic_cmp) (einsert "dynamic" dynamic_item es)))).
Proof.
  unfold replace_version, sort_values_by.
  change (tinsert "dynamic" dynamic_item (Table i d es))
    with (Table i d (einsert "dynamic" dynamic_item es)).
  now rewrite sort_values_by_internal_eq.
Qed.

Lemma replace_version_facts pt :
  NoDup (map fst (entries pt)) ->
  NoDup (map fst (entries (replace_version pt))) /\
  tget "dynamic" (replace_version pt) = Some dynamic_item /\
  tget "version" (replace_version pt) = None.
Proof.
  destruct pt as [i d es]. intros Hnd. cbn [entries] in Hnd.
  rewrite replace_version_eq. unfold tget; cbn [entries].
  set (es1 := map (sort_entry dynamic_cmp) (einsert "dynamic" dynamic_item es)).
  assert (Hnd1 : NoDup (map fst es1)).
  { unfold es1. rewrite keys_map_sort_entry. now apply NoDup_einsert. }
  set (L := insertion_sort (entry_less dynamic_cmp) es1).
  assert (HL : Permutation es1 L) by (apply Permutation_sym, insertion_sort_perm).
  assert (HndL : NoDup (map fst L)).
  { eapply Permutation_NoDup; [apply Permutation_map, HL|exact Hnd1]. }
  split; [|split].
  - now apply NoDup_eremove.
  - rewrite eget_eremove_other by discriminate.
    rewrite <- (eget_perm _ _ _ Hnd1 HL). unfold es1.
    rewrite eget_map_sort_entry, eget_einsert_same. reflexivity.
  - now apply eget_eremove_same.
Qed.

Lemma step_dynamic_est config d :
  enable_dynamic_version config = true -> project_keys_unique d -> project_ok (step_dynamic config d).
Proof.
  intros Hen Hu pt Hpt. unfold step_dynamic in Hpt. rewrite Hen in Hpt.
  unfold with_table_mut in Hpt. rewrite tget_tmodify_same in Hpt.
  destruct (tget "project" d) as [[|pt0|]|] eqn:E; simpl in Hpt; inversion Hpt; subst.
  apply replace_version_facts. now apply Hu.
Qed.

Lemma tinsert_id k it t : tget k t = Some it -> tinsert k it t = t.
Proof. destruct t; unfold tget, tinsert; simpl; intros H; f_equal; now apply einsert_id. Qed.

Lemma tremove_absent k t : tget k t = None -> tremove k t = t.
Proof. destruct t; unfold tget, tremove; simpl; intros H; f_equal; now apply eremove_absent. Qed.

Lemma tget_sort_values_by compare k t :
  NoDup (map fst (entries t)) ->
  tget k (sort_values_by compare t) = option_map (sort_item compare) (tget k t).
Proof.
  destruct t as [i d es]. intros Hnd. cbn [entries] in Hnd.
  unfold sort_values_by. rewrite sort_values_by_internal_eq. unfold tget; cbn [entries].
  rewrite <- eget_map_sort_entry. symmetry. apply eget_perm.
  - now rewrite keys_map_sort_entry.
  - apply Permutation_sym, insertion_sort_perm.
Qed.

Lemma project_ok_tget d d' : tget "project" d' = tget "project" d -> project_ok d -> project_ok d'.
Proof. intros E H pt Hpt. apply H. now rewrite <- E. Qed.

Lemma step_dynamic_on_ok config d :
  enable_dynamic_version config = true -> project_ok d ->
  step_dynamic config d = with_table_mut "project" (sort_values_by dynamic_cmp) d.
Proof.
  intros Hen Hok. unfold step_dynamic. rewrite Hen. unfold with_table_mut, tmodify.
  destruct d as [i d es]. simpl. f_equal. apply emodify_ext.
  intros it Hit. destruct it as [|pt|]; auto. f_equal.
  destruct (Hok pt Hit) as (Hnd & Hdyn & Hver).
  unfold replace_version. rewrite tinsert_id by exact Hdyn.
  apply tremove_absent. now rewrite tget_sort_values_by, Hver.
Qed.

(** ** Steps 2 to 5 reach a fixed point *)

Lemma version_ok_edit vt : version_ok (edit_hatch_version vt).
Proof.
  split.
  - unfold edit_hatch_version. rewrite is_implicit_tinsert. now destruct vt.
  - apply tget_tinsert_same.
Qed.

Lemma edit_hatch_version_id vt : version_ok vt -> edit_hatch_version vt = vt.
Proof. intros [Hi Hs]. unfold edit_hatch_version. rewrite set_implicit_id by auto. now apply tinsert_id. Qed.

Lemma hatch_ok_edit ht : hatch_ok (edit_hatch ht).
Proof.
  split.
  - unfold edit_hatch. rewrite is_implicit_nested_table. now destruct ht.
  - apply nested_table_est, version_ok_edit.
Qed.

Lemma edit_hatch_id ht : hatch_ok ht -> edit_hatch ht = ht.
Proof.
  intros [Hi Hs]. unfold edit_hatch. rewrite set_implicit_id by auto.
  eapply nested_table_id; [exact Hs|]. apply edit_hatch_version_id.
Qed.

Lemma tool_hatch_ok_edit tt : tool_hatch_ok (edit_tool_hatch tt).
Proof.
  split.
  - unfold edit_tool_hatch. rewrite is_implicit_nested_table. now destruct tt.
  - apply nested_table_est, hatch_ok_edit.
Qed.

Lemma edit_tool_hatch_id tt : tool_hatch_ok tt -> edit_tool_hatch tt = tt.
Proof.
  intros [Hi Hs]. unfold edit_tool_hatch. rewrite set_implicit_id by auto.
  eapply nested_table_id; [exact Hs|]. apply edit_hatch_id.
Qed.

Lemma ini_options_ok_edit t : ini_options_ok (edit_ini_options t).
Proof.
  split.
  - unfold edit_ini_options. rewrite is_implicit_tinsert. now destruct t.
  - apply tget_tinsert_same.
Qed.

Lemma edit_ini_options_id t : ini_options_ok t -> edit_ini_options t = t.
Proof. intros [Hi Hs]. unfold edit_ini_options. rewrite set_implicit_id by auto. now apply tinsert_id. Qed.

Lemma pytest_ok_edit t : pytest_ok (edit_pytest t).
Proof.
  split.
  - unfold edit_pytest. rewrite is_implicit_nested_table. now destruct t.
  - apply nested_table_est, ini_options_ok_edit.
Qed.

Lemma edit_pytest_id t : pytest_ok t -> edit_pytest t = t.
Proof.
  intros [Hi Hs]. unfold edit_pytest. rewrite set_implicit_id by auto.
  eapply nested_table_id; [exact Hs|]. apply edit_ini_options_id.
Qed.

Lemma tool_pytest_ok_edit tt : tool_pytest_ok (edit_tool_pytest tt).
Proof.
  split.
  - unfold edit_tool_pytest. rewrite is_implicit_nested_table. now destruct tt.
  - apply nested_table_est, pytest_ok_edit.
Qed.

Lemma edit_tool_pytest_id tt : tool_pytest_ok tt -> edit_tool_pytest tt = tt.
Proof.
  intros [Hi Hs]. unfold edit_tool_pytest. rewrite set_implicit_id by auto.
  eapply nested_table_id; [exact Hs|]. apply edit_pytest_id.
Qed.

Lemma bandit_ok_edit bt : bandit_ok (edit_bandit bt).
Proof.
  split.
  - unfold edit_bandit. apply (arr_ok_tget _ _ (add_to_array "skips" skips_to_add bt)).
    + apply tget_add_to_array_other. discriminate.
    + apply add_to_array_est.
  - apply add_to_array_est.
Qed.

Lemma edit_bandit_id bt : bandit_ok bt -> edit_bandit bt = bt.
Proof.
  intros [Hs He]. unfold edit_bandit. rewrite (add_to_array_id "skips") by auto.
  now apply add_to_array_id.
Qed.

Lemma tool_bandit_ok_edit tt : tool_bandit_ok (edit_tool_bandit tt).
Proof.
  split.
  - unfold edit_tool_bandit. rewrite is_implicit_nested_table. now destruct tt.
  - apply nested_table_est, bandit_ok_edit.
Qed.

Lemma edit_tool_bandit_id tt : tool_bandit_ok tt -> edit_tool_bandit tt = tt.
Proof.
  intros [Hi Hs]. unfold edit_tool_bandit. rewrite set_implicit_id by auto.
  eapply nested_table_id; [exact Hs|]. apply edit_bandit_id.
Qed.

Lemma tool_hatch_ok_pytest tt : tool_hatch_ok tt -> tool_hatch_ok (edit_tool_pytest tt).
Proof.
  intros [Hi Hs]. split.
  - unfold edit_tool_pytest. rewrite is_implicit_nested_table. now destruct tt.
  - apply (sub_ok_tget _ _ tt); [|exact Hs]. unfold edit_tool_pytest.
    rewrite tget_nested_table_other by discriminate. apply tget_set_implicit.
Qed.

Lemma tool_hatch_ok_bandit tt : tool_hatch_ok tt -> tool_hatch_ok (edit_tool_bandit tt).
Proof.
  intros [Hi Hs]. split.
  - unfold edit_tool_bandit. rewrite is_implicit_nested_table. now destruct tt.
  - apply (sub_ok_tget _ _ tt); [|exact Hs]. unfold edit_tool_bandit.
    rewrite tget_nested_table_other by discriminate. apply tget_set_implicit.
Qed.

Lemma tool_pytest_ok_bandit tt : tool_pytest_ok tt -> tool_pytest_ok (edit_tool_bandit tt).
Proof.
  intros [Hi Hs]. split.
  - unfold edit_tool_bandit. rewrite is_implicit_nested_table. now destruct tt.
  - apply (sub_ok_tget _ _ tt); [|exact Hs]. unfold edit_tool_bandit.
    rewrite tget_nested_table_other by discriminate. apply tget_set_implicit.
Qed.

Lemma step_hatch_est config d :
  enable_dynamic_version config = true -> sub_ok "tool" tool_hatch_ok (step_hatch config d).
Proof. intros H. unfold step_hatch. rewrite H. apply nested_table_est, tool_hatch_ok_edit. Qed.

Lemma step_hatch_fixed config d :
  (enable_dynamic_version config = true -> sub_ok "tool" tool_hatch_ok d) -> step_hatch config d = d.
Proof.
  intros H. unfold step_hatch. destruct (enable_dynamic_version config); auto.
  eapply nested_table_id; [apply H; auto|]. apply edit_tool_hatch_id.
Qed.

Lemma step_pytest_est config d :
  enable_pytest_asyncio config = true -> sub_ok "tool" tool_pytest_ok (step_pytest config d).
Proof. intros H. unfold step_pytest. rewrite H. apply nested_table_est, tool_pytest_ok_edit. Qed.

Lemma step_pytest_fixed config d :
  (enable_pytest_asyncio config = true -> sub_ok "tool" tool_pytest_ok d) -> step_pytest config d = d.
Proof.
  intros H. unfold step_pytest. destruct (enable_pytest_asyncio config); auto.
  eapply nested_table_id; [apply H; auto|]. apply edit_tool_pytest_id.
Qed.

Lemma step_bandit_est config d :
  enable_bandit config = true -> sub_ok "tool" tool_bandit_ok (step_bandit config d).
Proof. intros H. unfold step_bandit. rewrite H. apply nested_table_est, tool_bandit_ok_edit. Qed.

Lemma step_bandit_fixed config d :
  (enable_bandit config = true -> sub_ok "tool" tool_bandit_ok d) -> step_bandit config d = d.
Proof.
  intros H. unfold step_bandit. destruct (enable_bandit config); auto.
  eapply nested_table_id; [apply H; auto|]. apply edit_tool_bandit_id.
Qed.

Lemma step_pytest_pres_hatch config d :
  sub_ok "tool" tool_hatch_ok d -> sub_ok "tool" tool_hatch_ok (step_pytest config d).
Proof.
  intros H. unfold step_pytest. destruct (enable_pytest_asyncio config); auto.
  apply nested_table_pres; auto. apply tool_hatch_ok_pytest.
Qed.

Lemma step_bandit_pres_hatch config d :
  sub_ok "tool" tool_hatch_ok d -> sub_ok "tool" tool_hatch_ok (step_bandit config d).
Proof.
  intros H. unfold step_bandit. destruct (enable_bandit config); auto.
  apply nested_table_pres; auto. apply tool_hatch_ok_bandit.
Qed.

Lemma step_bandit_pres_pytest config d :
  sub_ok "tool" tool_pytest_ok d -> sub_ok "tool" tool_pytest_ok (step_bandit config d).
Proof.
  intros H. unfold step_bandit. destruct (enable_bandit config); auto.
  apply nested_table_pres; auto. apply tool_pytest_ok_bandit.
Qed.

Lemma step_requires_gate config d :
  step_requires config d
  = if requires_gate config
    then with_table_mut "build-system" (add_to_array "requires" (requires_to_add config)) d
    else d.
Proof. reflexivity. Qed.

Lemma step_requires_est config d : requires_ok config (step_requires config d).
Proof.
  intros G bt Hbt. rewrite step_requires_gate, G in Hbt.
  unfold with_table_mut in Hbt. rewrite tget_tmodify_same in Hbt.
  destruct (tget "build-system" d) as [[|bt0|]|]; simpl in Hbt; inversion Hbt; subst.
  apply add_to_array_est.
Qed.

Lemma step_requires_fixed config d : requires_ok config d -> step_requires config d = d.
Proof.
  intros H. rewrite step_requires_gate. destruct (requires_gate config) eqn:G; auto.
  unfold with_table_mut, tmodify. destruct d as [i dd es]. simpl. f_equal. apply emodify_id.
  intros it Hit. destruct it as [|bt|]; auto. f_equal. apply add_to_array_id.
  apply H; [exact G|exact Hit].
Qed.

Lemma requires_ok_tget config d d' :
  tget "build-system" d' = tget "build-system" d -> requires_ok config d -> requires_ok config d'.
Proof. intros E H G bt Hbt. apply H; auto. now rewrite <- E. Qed.

(** ** The confirmation test *)

Lemma trim_start_head s c r : trim_start s = c :: r -> is_whitespace c = false.
Proof.
  induction s as [|x s IH]; simpl; [discriminate|].
  destruct (is_whitespace x) eqn:W; auto. intros E. inversion E; subst. exact W.
Qed.

Lemma trim_start_snoc l c : is_whitespace c = false -> trim_start (l ++ [c]) = trim_start l ++ [c].
Proof.
  intros W. induction l as [|x l IH]; simpl.
  - rewrite W. reflexivity.
  - destruct (is_whitespace x); auto.
Qed.

Lemma trim_end_cons c r : is_whitespace c = false -> exists r', trim_end (c :: r) = c :: r'.
Proof.
  intros W. unfold trim_end. simpl. rewrite trim_start_snoc by exact W.
  rewrite rev_app_distr. simpl. eauto.
Qed.

Lemma lower_is_y (c : N) :
  ((if ((65 <=? c) && (c <=? 90))%N then (c + 32)%N else c) =? 121)%N
  = ((c =? 121) || (c =? 89))%N.
Proof.
  destruct (N.leb_spec 65 c), (N.leb_spec c 90); simpl;
  repeat match goal with |- context [N.eqb ?a ?b] => destruct (N.eqb_spec a b) end;
  simpl; try reflexivity; exfalso; lia.
Qed.

Lemma starts_with_y_confirms input :
  starts_with 121 (to_lowercase (trim input)) = confirms input.
Proof.
  unfold trim, confirms. destruct (trim_start input) as [|c r] eqn:T.
  - reflexivity.
  - destruct (trim_end_cons c r (trim_start_head _ _ _ T)) as [r' E].
    rewrite E. simpl. apply lower_is_y.
Qed.

(** * Claims *)

(** C9: appending a string already present in a [requires], [skips] or
    [exclude_dirs] array leaves its length unchanged, and the append loops
    only ever extend the array: the old entries stay, in order, in front. *)
Theorem append_present_keeps_length :
  (forall arr s, existsb (str_eq s) arr = true -> length (push_if_absent arr s) = length arr) /\
  (forall to_add arr, exists extra, push_missing to_add arr = arr ++ extra) /\
  (forall k t a s, tget k t = Some (ItemValue (VArray a)) -> existsb (str_eq s) a = true ->
     tget k (add_to_array k [s] t) = Some (ItemValue (VArray a))).
Proof.
  split; [|split].
  - intros arr s H. now rewrite push_if_absent_present.
  - apply push_missing_prefix.
  - intros k t a s Ha Hs. rewrite tget_add_to_array_same, Ha. simpl.
    now rewrite push_if_absent_present.
Qed.

(** C6: on a parsed manifest, [has_project_dynamic] returns true exactly
    when the top-level [project] item is a table holding a [dynamic] key,
    whatever that key's item is; otherwise (no [project], a [project] that
    is not a table, or no [dynamic] key) it returns false. *)
Theorem has_project_dynamic_iff parse s doc :
  parse s = Ok doc ->
  has_project_dynamic parse (Ok s) = Ok (has_project_dynamic_doc doc) /\
  (has_project_dynamic_doc doc = true <->
   exists pt it, tget "project" doc = Some (ItemTable pt) /\ tget "dynamic" pt = Some it).
Proof.
  intros Hp. split.
  - simpl. now rewrite Hp.
  - unfold has_project_dynamic_doc, contains_key.
    destruct (tget "project" doc) as [[v|pt|ts]|] eqn:E.
    + split; [discriminate|]. intros (pt & it & H & _). discriminate.
    + split.
      * destruct (tget "dynamic" pt) as [it|] eqn:E2; [|discriminate].
        intros _. now exists pt, it.
      * intros (pt' & it & H & H2). inversion H; subst. now rewrite H2.
    + split; [discriminate|]. intros (pt & it & H & _). discriminate.
    + split; [discriminate|]. intros (pt & it & H & _). discriminate.
Qed.

Lemma has_project_dynamic_iff_witness :
  has_project_dynamic (fun _ => Ok test_doc) (Ok "") = Ok false /\
  (has_project_dynamic_doc test_doc = true <->
   exists pt it, tget "project" test_doc = Some (ItemTable pt) /\ tget "dynamic" pt = Some it).
Proof. exact (has_project_dynamic_iff (fun _ => Ok test_doc) "" test_doc eq_refl). Defined.

(** C10: when [enable_dynamic_version] is on and the [project] table
    already has a [dynamic] key with any item, the transform sets it to
    exactly [["version"]], dropping what it held. *)
Theorem existing_dynamic_replaced config doc pt old :
  enable_dynamic_version config = true ->
  tget "project" doc = Some (ItemTable pt) ->
  NoDup (map fst (entries pt)) ->
  tget "dynamic" pt = Some old ->
  exists pt', tget "project" (transform config doc) = Some (ItemTable pt') /\
              tget "dynamic" pt' = Some dynamic_item.
Proof.
  intros Hen Hpt Hnd _. rewrite tget_transform_project.
  unfold step_dynamic. rewrite Hen. unfold with_table_mut. rewrite tget_tmodify_same, Hpt.
  simpl. eexists; split; [reflexivity|]. now apply replace_version_facts.
Qed.

Lemma existing_dynamic_replaced_witness :
  exists pt', tget "project" (transform test_config existing_dynamic_doc) = Some (ItemTable pt') /\
              tget "dynamic" pt' = Some dynamic_item.
Proof.
  apply (existing_dynamic_replaced test_config existing_dynamic_doc
           (Table false false
              [("name", vstr "test-project");
               ("dynamic", ItemValue (VArray [VString "version"; VString "description"]));
               ("dependencies", ItemValue (VArray [VString "requests"]))])
           (ItemValue (VArray [VString "version"; VString "description"]))).
  - reflexivity.
  - reflexivity.
  - simpl. repeat (constructor; [simpl; intuition discriminate|]). constructor.
  - reflexivity.
Defined.

Lemma tget_step_requires_not_table config d :
  (forall bt, tget "build-system" d <> Some (ItemTable bt)) ->
  tget "build-system" (step_requires config d) = tget "build-system" d.
Proof.
  intros H. unfold step_requires. destruct (_ || _); auto.
  unfold with_table_mut. rewrite tget_tmodify_same.
  destruct (tget "build-system" d) as [[v|bt|ts]|] eqn:E; simpl; auto.
  exfalso; eapply H; eauto.
Qed.

(** C7: a manifest without a [build-system] table, transformed with
    [add_hatch_vcs] on (or some [additional_requires]): the transform
    completes without error and the [build-system] entry is left as it
    was, so the output has no [build-system] table either. *)
Theorem no_build_system_table_untouched parse to_string write s config doc :
  add_hatch_vcs config = true \/ additional_requires config <> [] ->
  parse s = Ok doc ->
  (forall bt, tget "build-system" doc <> Some (ItemTable bt)) ->
  write (to_string (transform config doc)) = Ok tt ->
  modify_pyproject_toml parse to_string write (Ok s) config = Ok tt /\
  tget "build-system" (transform config doc) = tget "build-system" doc /\
  (forall bt, tget "build-system" (transform config doc) <> Some (ItemTable bt)).
Proof.
  intros _ Hp Hno Hw.
  assert (E : tget "build-system" (transform config doc) = tget "build-system" doc).
  { unfold transform.
    rewrite tget_step_bandit_other, tget_step_pytest_other, tget_step_hatch_other by discriminate.
    rewrite tget_step_requires_not_table.
    - now apply tget_step_dynamic_other.
    - rewrite tget_step_dynamic_other by discriminate. exact Hno. }
  split; [|split; [exact E|]].
  - unfold modify_pyproject_toml, rendered. now rewrite Hp.
  - intros bt. rewrite E. apply Hno.
Qed.

Lemma no_build_system_table_untouched_witness :
  modify_pyproject_toml (fun _ => Ok name_version_doc) (fun _ => "") (fun _ => Ok tt)
    (Ok "") test_config = Ok tt /\
  tget "build-system" (transform test_config name_version_doc) = tget "build-system" name_version_doc /\
  (forall bt, tget "build-system" (transform test_config name_version_doc) <> Some (ItemTable bt)).
Proof.
  apply (no_build_system_table_untouched (fun _ => Ok name_version_doc) (fun _ => "")
           (fun _ => Ok tt) "" test_config name_version_doc).
  - left; reflexivity.
  - reflexivity.
  - intros bt; discriminate.
  - reflexivity.
Defined.

Lemma transform_all_disabled config doc :
  enable_dynamic_version config = false -> add_hatch_vcs config = false ->
  additional_requires config = [] -> enable_pytest_asyncio config = false ->
  enable_bandit config = false -> transform config doc = doc.
Proof.
  intros H1 H2 H3 H4 H5.
  unfold transform, step_bandit, step_pytest, step_hatch, step_requires, step_dynamic.
  now rewrite H1, H2, H3, H4, H5.
Qed.

Lemma substring_0_length (t : string) : substring 0 (String.length t) t = t.
Proof. induction t as [|c t IH]; simpl; [reflexivity|now rewrite IH]. Qed.

Lemma strip_bom_bom (t : string) : strip_bom (utf8_bom ++ t) = t.
Proof.
  unfold strip_bom. cbn. rewrite Nat.sub_0_r.
  replace (prefix "" t) with true by (destruct t; reflexivity).
  apply substring_0_length.
Qed.

(** C8, as claimed: with every edit off, a manifest that starts with a
    byte order mark is written back without it, even with a printer that
    gives back exactly the text the document was parsed from. *)
Lemma all_disabled_bom_counterexample :
  rendered (parse_document raw_parse) raw_print (Ok bom_manifest) disabled_config = Ok "[project]"
  /\ "[project]" <> bom_manifest.
Proof. vm_compute. split; [reflexivity|discriminate]. Qed.

(** C8, amended: with the five edits off, the transform leaves the parsed
    document as it is, so the text written back is toml_edit's printing of
    the document parsed from the input after its byte order mark, if any;
    a manifest [BOM ++ t] is printed from the document parsed from [t]. *)
Theorem all_disabled_writes_parsed_document parse_body to_string config s :
  enable_dynamic_version config = false -> add_hatch_vcs config = false ->
  additional_requires config = [] -> enable_pytest_asyncio config = false ->
  enable_bandit config = false ->
  rendered (parse_document parse_body) to_string (Ok s) config
  = match parse_body (strip_bom s) with
    | Ok doc => Ok (to_string doc)
    | Err _ => Err "Failed to parse TOML document"
    end
  /\ (forall t, parse_document parse_body (utf8_bom ++ t) = parse_body t).
Proof.
  intros H1 H2 H3 H4 H5. split.
  - unfold rendered, parse_document.
    destruct (parse_body (strip_bom s)) as [doc|e]; [|reflexivity].
    now rewrite transform_all_disabled.
  - intros t. unfold parse_document. now rewrite strip_bom_bom.
Qed.

Lemma all_disabled_writes_parsed_document_witness :
  rendered (parse_document raw_parse) raw_print (Ok bom_manifest) disabled_config
  = match raw_parse (strip_bom bom_manifest) with
    | Ok doc => Ok (raw_print doc)
    | Err _ => Err "Failed to parse TOML document"
    end
  /\ (forall t, parse_document raw_parse (utf8_bom ++ t) = raw_parse t).
Proof.
  apply all_disabled_writes_parsed_document; reflexivity.
Defined.

(** C2, as claimed: the second run gives back the first run's document. *)
Lemma transform_twice_counterexample :
  transform dynamic_only_config (transform dynamic_only_config name_version_doc)
  <> transform dynamic_only_config name_version_doc.
Proof. vm_compute. intros H. discriminate H. Qed.

(** C2, amended: with [enable_dynamic_version] on, running the transform
    on its own output changes nothing but the order of the [project]
    table's entries, which step 1 sorts again with its comparator
    ([dynamic] then moves ahead of every entry before it, sub-tables
    included). *)
Theorem transform_twice_resorts_project config doc :
  enable_dynamic_version config = true ->
  project_keys_unique doc ->
  transform config (transform config doc)
  = with_table_mut "project" (sort_values_by dynamic_cmp) (transform config doc).
Proof.
  intros Hen Hu.
  set (d0 := step_dynamic config doc).
  set (d2 := step_requires config d0).
  set (d3 := step_hatch config d2).
  set (d4 := step_pytest config d3).
  set (d1 := transform config doc).
  assert (E1 : d1 = step_bandit config d4) by reflexivity.
  assert (Hproj : project_ok d1).
  { apply (project_ok_tget d0).
    - rewrite E1. unfold d4, d3, d2.
      rewrite tget_step_bandit_other, tget_step_pytest_other, tget_step_hatch_other,
        tget_step_requires_other by discriminate. reflexivity.
    - now apply step_dynamic_est. }
  assert (Hreq : requires_ok config d1).
  { apply (requires_ok_tget config d2).
    - rewrite E1. unfold d4, d3.
      rewrite tget_step_bandit_other, tget_step_pytest_other, tget_step_hatch_other
        by discriminate. reflexivity.
    - apply step_requires_est. }
  assert (Hhatch : sub_ok "tool" tool_hatch_ok d1).
  { rewrite E1. apply step_bandit_pres_hatch. apply step_pytest_pres_hatch.
    now apply step_hatch_est. }
  assert (Hpy : enable_pytest_asyncio config = true -> sub_ok "tool" tool_pytest_ok d1).
  { intros H. rewrite E1. apply step_bandit_pres_pytest. now apply step_pytest_est. }
  assert (Hban : enable_bandit config = true -> sub_ok "tool" tool_bandit_ok d1).
  { intros H. rewrite E1. now apply step_bandit_est. }
  set (R := with_table_mut "project" (sort_values_by dynamic_cmp) d1).
  assert (Etool : tget "tool" R = tget "tool" d1)
    by (apply tget_with_table_mut_other; discriminate).
  assert (Ebs : tget "build-system" R = tget "build-system" d1)
    by (apply tget_with_table_mut_other; discriminate).
  unfold transform at 1.
  rewrite (step_dynamic_on_ok config d1 Hen Hproj). fold R.
  rewrite (step_requires_fixed config R) by (eapply requires_ok_tget; eauto).
  rewrite (step_hatch_fixed config R) by (intros _; eapply sub_ok_tget; eauto).
  rewrite (step_pytest_fixed config R) by (intros H; eapply sub_ok_tget; eauto).
  rewrite (step_bandit_fixed config R) by (intros H; eapply sub_ok_tget; eauto).
  reflexivity.
Qed.

Lemma transform_twice_resorts_project_witness :
  transform test_config (transform test_config test_doc)
  = with_table_mut "project" (sort_values_by dynamic_cmp) (transform test_config test_doc).
Proof.
  apply transform_twice_resorts_project.
  - reflexivity.
  - intros pt Hpt. simpl in Hpt. inversion Hpt; subst. simpl.
    repeat (constructor; [simpl; intuition discriminate|]). constructor.
Defined.

(** C1, as claimed: a failed per-file transform makes the run fail.  Here
    the one queued file's rewrite fails, and the exit status is still 0. *)
Lemma file_failure_exit_counterexample :
  In (Modified "pkg/pyproject.toml" (Err "Permission denied (os error 13)"))
     (fst (run_uvinit failing_write_env true))
  /\ main_exit_code failing_write_env true = 0.
Proof. vm_compute. split; [left; reflexivity | reflexivity]. Qed.

(** C1, amended: per-file transform failures are reported but never change
    the exit status.  Once the settings load and the walk succeed, and the
    confirmation line (when asked for) is read, the status is success
    whatever each file's transform returns. *)
Theorem exit_code_ignores_file_failures env yes config files :
  load_config env = Ok config ->
  find_files env (Config.skip_dirs config) = Ok files ->
  (yes = true \/ exists line, stdin_line env = Ok line) ->
  forall m, main_exit_code (with_modify env m) yes = 0.
Proof.
  intros Hc Hf Hy m. unfold main_exit_code, run_uvinit, with_modify.
  cbn [load_config find_files stdin_line]. rewrite Hc, Hf.
  destruct files as [|f files]; [reflexivity|].
  destruct (queued _ (f :: files)); [reflexivity|].
  destruct yes; [reflexivity|]. simpl.
  destruct Hy as [Hy|[line Hl]]; [discriminate|]. rewrite Hl.
  destruct (negb _); reflexivity.
Qed.

Lemma exit_code_ignores_file_failures_witness :
  main_exit_code (with_modify failing_write_env (fun _ => Err "disk full")) true = 0.
Proof.
  apply (exit_code_ignores_file_failures failing_write_env true Config.default
           ["pkg/pyproject.toml"]).
  - reflexivity.
  - reflexivity.
  - left. reflexivity.
Defined.

(** C5, as claimed: the Apply phase runs only on a line beginning with y or
    Y.  The line " y" begins with a space, and the file is transformed. *)
Lemma leading_space_confirms_counterexample :
  hd_error [32; 121; 10]%N = Some 32%N
  /\ run_uvinit space_y_env false
     = ([ReadConfirmation; Modified "pkg/pyproject.toml" (Ok tt)], Ok tt).
Proof. vm_compute. split; reflexivity. Qed.

(** C5, amended: without the skip-confirmation flag and with a file
    queued, one line is read; the Apply phase runs on every queued file iff
    the first non-whitespace character of the line is y or Y, and otherwise
    the run ends successfully having transformed nothing. *)
Theorem confirmation_first_nonspace_y env config files input :
  load_config env = Ok config ->
  find_files env (Config.skip_dirs config) = Ok files ->
  queued env files <> [] ->
  stdin_line env = Ok input ->
  run_uvinit env false
  = (if confirms input
     then ReadConfirmation :: process_files env (queued env files)
     else [ReadConfirmation], Ok tt).
Proof.
  intros Hc Hf Hq Hs. unfold run_uvinit. rewrite Hc, Hf.
  destruct files as [|f files]; [contradiction Hq; reflexivity|].
  destruct (queued env (f :: files)) as [|q qs]; [contradiction Hq; reflexivity|].
  simpl. rewrite Hs, starts_with_y_confirms.
  destruct (confirms input); reflexivity.
Qed.

Lemma confirmation_first_nonspace_y_witness :
  run_uvinit space_y_env false
  = (if confirms [32; 121; 10]%N
     then ReadConfirmation :: process_files space_y_env (queued space_y_env ["pkg/pyproject.toml"])
     else [ReadConfirmation], Ok tt).
Proof.
  apply (confirmation_first_nonspace_y space_y_env Config.default ["pkg/pyproject.toml"]).
  - reflexivity.
  - reflexivity.
  - vm_compute. intros H. discriminate H.
  - reflexivity.
Defined.

(** C3: the walk does not return every [pyproject.toml] outside the
    excluded directories.  A directory whose name is not UTF-8 is never
    entered, so the manifest inside it is missing from the result. *)
Theorem non_utf8_dir_not_walked :
  find_pyproject_files non_utf8_tree [] = Ok []
  /\ claimed_manifests non_utf8_tree [] [] = [[[xff]; pyproject_name]].
Proof. vm_compute. split; reflexivity. Qed.

(** C4: config.rs's [UvinitConfig] has no pytest or bandit flag.  Its
    default serializes to the four keys skip_dirs, add_hatch_vcs,
    enable_dynamic_version and additional_requires, and a [uvinit] section
    setting [enable_pytest_asyncio] and [enable_bandit] deserializes to the
    default, the two keys being dropped. *)
Theorem config_has_no_pytest_bandit_flags :
  map fst (Config.serialize Config.default)
  = ["skip_dirs"; "add_hatch_vcs"; "enable_dynamic_version"; "additional_requires"]
  /\ Config.deserialize [("enable_pytest_asyncio", VBoolean false); ("enable_bandit", VBoolean false)]
     = Ok Config.default.
Proof. vm_compute. split; reflexivity. Qed.

(** * Further properties of the code *)

(** ** The sort of step 1 *)

Lemma insert_tail_skip {A} (f : A -> A -> bool) x B R :
  Forall (fun b => f x b = true) B -> insert_tail f x (B ++ R) = B ++ insert_tail f x R.
Proof. induction 1 as [|b B Hb _ IH]; simpl; auto. now rewrite Hb, IH. Qed.

Lemma insert_tail_stop {A} (f : A -> A -> bool) x R :
  match R with [] => True | y :: _ => f x y = false end -> insert_tail f x R = x :: R.
Proof. destruct R as [|y R]; simpl; auto. intros H. now rewrite H. Qed.

Lemma insert_tail_rev {A} (f : A -> A -> bool) x A0 B :
  Forall (fun b => f x b = true) B ->
  match rev A0 with [] => True | y :: _ => f x y = false end ->
  insert_tail f x (rev (A0 ++ B)) = rev (A0 ++ x :: B).
Proof.
  intros HB HA. rewrite !rev_app_distr. simpl.
  rewrite insert_tail_skip by now apply Forall_rev.
  rewrite insert_tail_stop by exact HA. now rewrite <- app_assoc.
Qed.

Lemma insertion_sort_snoc {A} (f : A -> A -> bool) l x :
  insertion_sort f (l ++ [x]) = rev (insert_tail f x (rev (insertion_sort f l))).
Proof. unfold insertion_sort. now rewrite fold_left_app, rev_involutive. Qed.

Lemma split_at_key_spec k l a b :
  split_at_key k l = Some (a, b) -> l = a ++ k :: b /\ ~ In k a.
Proof.
  revert a b. induction l as [|k' l IH]; simpl; intros a b H; [discriminate|].
  destruct (String.eqb_spec k' k) as [->|E].
  - inversion H; subst. simpl. auto.
  - destruct (split_at_key k l) as [[a' b']|]; [|discriminate].
    inversion H; subst. destruct (IH a' b eq_refl) as [-> Hn].
    simpl. split; [reflexivity|]. intros [H'|H']; auto.
Qed.

Lemma split_at_key_None k l : split_at_key k l = None -> ~ In k l.
Proof.
  induction l as [|k' l IH]; simpl; intros H; auto.
  destruct (String.eqb_spec k' k) as [E|E]; [discriminate|].
  destruct (split_at_key k l) as [[]|]; [discriminate|].
  intros [H'|H']; [auto|]. now apply IH.
Qed.

Lemma key_less_other x y : x <> "dynamic" -> key_less x y = false.
Proof.
  intros H. unfold key_less, dynamic_cmp, REPLACE_KEY_DYN.
  now rewrite (eqb_neq_false x "dynamic").
Qed.

Lemma key_less_dynamic y : y <> "version" -> key_less "dynamic" y = true.
Proof.
  intros H. unfold key_less, dynamic_cmp, REPLACE_KEY_DYN, REPLACE_KEY_VER.
  now rewrite (eqb_neq_false y "version").
Qed.

(** Keys other than [dynamic] never move left: appended after a sorted
    prefix they stay where they are. *)
Lemma insertion_sort_keep A l :
  Forall (fun x => x <> "dynamic") l ->
  insertion_sort key_less (A ++ l) = insertion_sort key_less A ++ l.
Proof.
  induction l as [|x l IH] using rev_ind; intros H; [now rewrite !app_nil_r|].
  apply Forall_app in H as [Hl Hx]. inversion Hx as [|? ? Hx0]; subst.
  rewrite app_assoc, insertion_sort_snoc, IH by exact Hl.
  rewrite insert_tail_stop.
  - simpl. now rewrite rev_involutive, app_assoc.
  - destruct (rev (insertion_sort key_less A ++ l)); auto. now apply key_less_other.
Qed.

(** Rust's insertion sort with the comparator of step 1, on unique keys. *)
Lemma insertion_sort_place_dynamic ks :
  NoDup ks -> insertion_sort key_less ks = place_dynamic ks.
Proof.
  intros Hnd. unfold place_dynamic.
  assert (Hid : forall l, Forall (fun x => x <> "dynamic") l -> insertion_sort key_less l = l)
    by (intros l Hl; exact (insertion_sort_keep [] l Hl)).
  destruct (split_at_key "dynamic" ks) as [[pre post]|] eqn:E.
  - destruct (split_at_key_spec _ _ _ _ E) as [-> Hpre].
    apply NoDup_remove in Hnd as [Hnd' Hpost].
    assert (Fpost : Forall (fun x => x <> "dynamic") post).
    { apply Forall_forall. intros x Hx ->. apply Hpost, in_or_app. now right. }
    assert (Fpre : Forall (fun x => x <> "dynamic") pre).
    { apply Forall_forall. intros x Hx ->. contradiction. }
    replace (pre ++ "dynamic" :: post) with ((pre ++ ["dynamic"]) ++ post)
      by (rewrite <- app_assoc; reflexivity).
    rewrite insertion_sort_keep by exact Fpost.
    rewrite insertion_sort_snoc, (Hid pre Fpre).
    destruct (split_at_key "version" pre) as [[p1 p2]|] eqn:E2.
    + destruct (split_at_key_spec _ _ _ _ E2) as [-> _].
      rewrite <- app_assoc in Hnd'. simpl in Hnd'.
      apply NoDup_remove_2 in Hnd'.
      replace (p1 ++ "version" :: p2) with ((p1 ++ ["version"]) ++ p2)
        by (rewrite <- app_assoc; reflexivity).
      rewrite insert_tail_rev.
      * rewrite rev_involutive, <- !app_assoc. reflexivity.
      * apply Forall_forall. intros y Hy. apply key_less_dynamic.
        intros ->. apply Hnd'. apply in_or_app. right. apply in_or_app. now left.
      * now rewrite rev_app_distr.
    + apply split_at_key_None in E2.
      replace (rev pre) with (rev ([] ++ pre)) by reflexivity.
      rewrite insert_tail_rev.
      * now rewrite rev_involutive.
      * apply Forall_forall. intros y Hy. apply key_less_dynamic. now intros ->.
      * exact I.
  - apply split_at_key_None in E. apply Hid.
    apply Forall_forall. intros x Hx ->. contradiction.
Qed.

Lemma filter_keep_all k l :
  ~ In k l -> filter (fun k' => negb (String.eqb k' k)) l = l.
Proof.
  induction l as [|a l IH]; simpl; intros H; auto.
  rewrite (eqb_neq_false a k) by (intros ->; auto). simpl. rewrite IH; auto.
Qed.

Lemma keys_eremove_filter k es :
  NoDup (map fst es) ->
  map fst (eremove k es) = filter (fun k' => negb (String.eqb k' k)) (map fst es).
Proof.
  induction es as [|[k' it] rest IH]; simpl; intros Hnd; auto.
  inversion Hnd as [|? ? Hn Hnd']; subst.
  destruct (String.eqb_spec k k') as [<-|Hne].
  - rewrite String.eqb_refl. simpl. symmetry. now apply filter_keep_all.
  - rewrite (eqb_neq_false k' k) by auto. simpl. now rewrite IH.
Qed.

(** X1: with [enable_dynamic_version] on and a [project] table of unique
    keys and fewer than 20 entries (so that Rust's [sort_by] is its
    insertion sort), step 1 orders the project table as follows: after
    [dynamic = ["version"]] is inserted (in place, or at the end),
    [dynamic] moves to just after [version] when [version] came before it
    and to the front otherwise, every other entry keeping its place;
    finally [version] is dropped.  Steps 2 to 5 keep that table. *)
Theorem transform_project_order config doc pt :
  enable_dynamic_version config = true ->
  tget "project" doc = Some (ItemTable pt) ->
  NoDup (map fst (entries pt)) ->
  length (entries pt) < 20 ->
  exists pt', tget "project" (transform config doc) = Some (ItemTable pt') /\
    map fst (entries pt')
    = filter (fun k => negb (String.eqb k "version"))
        (place_dynamic (map fst (entries (tinsert "dynamic" dynamic_item pt)))).
Proof.
  intros Hen Hpt Hnd _.
  rewrite tget_transform_project. unfold step_dynamic. rewrite Hen.
  unfold with_table_mut. rewrite tget_tmodify_same, Hpt. simpl.
  eexists. split; [reflexivity|].
  destruct pt as [i d es]. rewrite replace_version_eq. cbn [entries] in *.
  change (entries (tinsert "dynamic" dynamic_item (Table i d es))) with (einsert "dynamic" dynamic_item es).
  set (es1 := einsert "dynamic" dynamic_item es).
  assert (Hnd1 : NoDup (map fst es1)) by now apply NoDup_einsert.
  rewrite keys_eremove_filter.
  2: { eapply Permutation_NoDup; [apply Permutation_map, Permutation_sym, insertion_sort_perm|].
       now rewrite keys_map_sort_entry. }
  f_equal.
  rewrite <- (insertion_sort_map _ key_less fst) by (intros a b; reflexivity).
  rewrite keys_map_sort_entry.
  now apply insertion_sort_place_dynamic.
Qed.

Lemma transform_project_order_witness :
  exists pt', tget "project" (transform dynamic_only_config urls_doc) = Some (ItemTable pt') /\
    map fst (entries pt')
    = filter (fun k => negb (String.eqb k "version"))
        (place_dynamic (map fst (entries (tinsert "dynamic" dynamic_item urls_project)))).
Proof.
  apply transform_project_order.
  - reflexivity.
  - reflexivity.
  - simpl. repeat (constructor; [simpl; intuition discriminate|]). constructor.
  - simpl. lia.
Defined.

(** ** The top-level entries *)

Lemma keys_emodify k f es : map fst (emodify k f es) = map fst es.
Proof.
  induction es as [|[k' it] rest IH]; simpl; auto.
  destruct (String.eqb k k'); simpl; now rewrite ?IH.
Qed.

Lemma keys_einsert_new k it es : eget k es = None -> map fst (einsert k it es) = map fst es ++ [k].
Proof.
  induction es as [|[k' it'] rest IH]; simpl; intros H; auto.
  destruct (String.eqb k k'); [discriminate|]. simpl. now rewrite IH.
Qed.

Lemma keys_with_table_mut k f t : map fst (entries (with_table_mut k f t)) = map fst (entries t).
Proof. destruct t. apply keys_emodify. Qed.

Lemma keys_step_dynamic config d : map fst (entries (step_dynamic config d)) = map fst (entries d).
Proof. unfold step_dynamic. destruct (enable_dynamic_version config); auto. apply keys_with_table_mut. Qed.

Lemma keys_step_requires config d : map fst (entries (step_requires config d)) = map fst (entries d).
Proof. rewrite step_requires_gate. destruct (requires_gate config); auto. apply keys_with_table_mut. Qed.

Lemma keys_tool_step (b : bool) (g : table -> table) (d : table) :
  map fst (entries (if b then nested_table "tool" g d else d))
  = map fst (entries d) ++ (if contains_key "tool" d || negb b then [] else ["tool"]).
Proof.
  destruct b; cbn [negb]; [rewrite orb_false_r | rewrite orb_true_r, app_nil_r; reflexivity].
  unfold nested_table, ensure_table, contains_key. rewrite keys_with_table_mut.
  destruct (tget "tool" d) eqn:E.
  - now rewrite app_nil_r.
  - destruct d as [i dd es]. unfold tinsert, map_entries. cbn [entries].
    apply keys_einsert_new. exact E.
Qed.

Lemma contains_tool_step (b : bool) (g : table -> table) (d : table) :
  contains_key "tool" (if b then nested_table "tool" g d else d) = contains_key "tool" d || b.
Proof.
  destruct b; [|now rewrite orb_false_r].
  unfold contains_key at 1. rewrite tget_nested_table_same. now rewrite orb_true_r.
Qed.

Lemma contains_tool_step_requires config d :
  contains_key "tool" (step_requires config (step_dynamic config d)) = contains_key "tool" d.
Proof.
  unfold contains_key. rewrite tget_step_requires_other, tget_step_dynamic_other by discriminate.
  reflexivity.
Qed.

(** X2: the transform keeps the document's top-level entries in their
    order, and adds one entry only: [tool], at the end, when it was absent
    and one of the three [tool] edits is on.  Every top-level entry other
    than [project], [build-system] and [tool] is left as it was. *)
Theorem transform_top_level config doc :
  map fst (entries (transform config doc))
  = map fst (entries doc)
    ++ (if contains_key "tool" doc
           || negb (enable_dynamic_version config || enable_pytest_asyncio config
                    || enable_bandit config)
        then [] else ["tool"])
  /\ (forall k, k <> "project" -> k <> "build-system" -> k <> "tool" ->
        tget k (transform config doc) = tget k doc).
Proof.
  split.
  - unfold transform, step_bandit, step_pytest, step_hatch.
    rewrite !keys_tool_step, !contains_tool_step, contains_tool_step_requires,
      keys_step_requires, keys_step_dynamic.
    destruct (contains_key "tool" doc), (enable_dynamic_version config),
      (enable_pytest_asyncio config), (enable_bandit config);
      simpl; rewrite ?app_nil_r; reflexivity.
  - intros k H1 H2 H3. unfold transform.
    rewrite tget_step_bandit_other, tget_step_pytest_other, tget_step_hatch_other,
      tget_step_requires_other, tget_step_dynamic_other by assumption.
    reflexivity.
Qed.

(** ** What the transform establishes *)

(** X3: after the transform: when step 2 runs and [build-system] is a
    table, its [requires] exists and, when an array, holds every
    requirement to add; with [enable_dynamic_version] and unique keys in
    [project], a [project] table has [dynamic = ["version"]] and no
    [version]; with each of the three [tool] edits on, [tool] exists and,
    down each path of tables, the tables are implicit and the setting is
    there ([tool.hatch.version.source = "vcs"],
    [tool.pytest.ini_options.asyncio_mode = "auto"], and [tool.bandit]'s
    [skips] and [exclude_dirs] holding B101 and .venv, venv, tests).  Later
    steps never undo earlier ones. *)
Theorem transform_postconditions config doc :
  requires_ok config (transform config doc) /\
  (enable_dynamic_version config = true -> project_keys_unique doc ->
     project_ok (transform config doc)) /\
  (enable_dynamic_version config = true -> sub_ok "tool" tool_hatch_ok (transform config doc)) /\
  (enable_pytest_asyncio config = true -> sub_ok "tool" tool_pytest_ok (transform config doc)) /\
  (enable_bandit config = true -> sub_ok "tool" tool_bandit_ok (transform config doc)).
Proof.
  unfold transform. split; [|split; [|split; [|split]]].
  - apply (requires_ok_tget config (step_requires config (step_dynamic config doc))).
    + rewrite tget_step_bandit_other, tget_step_pytest_other, tget_step_hatch_other
        by discriminate. reflexivity.
    + apply step_requires_est.
  - intros Hen Hu. apply (project_ok_tget (step_dynamic config doc)).
    + rewrite tget_step_bandit_other, tget_step_pytest_other, tget_step_hatch_other,
        tget_step_requires_other by discriminate. reflexivity.
    + now apply step_dynamic_est.
  - intros H. apply step_bandit_pres_hatch, step_pytest_pres_hatch. now apply step_hatch_est.
  - intros H. apply step_bandit_pres_pytest. now apply step_pytest_est.
  - intros H. now apply step_bandit_est.
Qed.

Lemma transform_postconditions_witness :
  requires_ok test_config (transform test_config test_doc) /\
  (enable_dynamic_version test_config = true -> project_keys_unique test_doc ->
     project_ok (transform test_config test_doc)) /\
  (enable_dynamic_version test_config = true ->
     sub_ok "tool" tool_hatch_ok (transform test_config test_doc)) /\
  (enable_pytest_asyncio test_config = true ->
     sub_ok "tool" tool_pytest_ok (transform test_config test_doc)) /\
  (enable_bandit test_config = true ->
     sub_ok "tool" tool_bandit_ok (transform test_config test_doc)).
Proof. apply transform_postconditions. Defined.


(** ** The appends of step 2 *)

Lemma push_missing_spec to_add arr :
  exists added, push_missing to_add arr = arr ++ map VString added /\ NoDup added /\
    (forall s, In s added <-> In s to_add /\ existsb (str_eq s) arr = false).
Proof.
  revert arr. induction to_add as [|x rest IH]; intros arr.
  - exists []. rewrite app_nil_r. split; [reflexivity|split; [constructor|]].
    intros s. simpl. tauto.
  - change (push_missing (x :: rest) arr) with (push_missing rest (push_if_absent arr x)).
    unfold push_if_absent. destruct (existsb (str_eq x) arr) eqn:Ex.
    + destruct (IH arr) as (added & E & Hnd & Hin).
      exists added. split; [exact E|split; [exact Hnd|]].
      intros s. rewrite Hin. simpl. split; [tauto|].
      intros [[->|H] H']; [congruence|tauto].
    + destruct (IH (arr ++ [VString x])) as (added & E & Hnd & Hin).
      exists (x :: added). split; [|split].
      * rewrite E, <- app_assoc. reflexivity.
      * constructor; auto. intros H. apply Hin in H as [_ H].
        rewrite existsb_app in H. simpl in H. rewrite String.eqb_refl in H.
        rewrite orb_true_r in H. discriminate.
      * intros s. simpl. rewrite Hin, existsb_app. simpl.
        destruct (String.eqb_spec x s) as [<-|Hne].
        -- rewrite Ex. simpl. tauto.
        -- rewrite orb_false_r. split; [tauto|].
           intros [[H|H] H']; [congruence|auto].
Qed.

Lemma tget_transform_build_system config d :
  tget "build-system" (transform config d)
  = tget "build-system" (step_requires config (step_dynamic config d)).
Proof.
  unfold transform.
  rewrite tget_step_bandit_other, tget_step_pytest_other, tget_step_hatch_other by discriminate.
  reflexivity.
Qed.

(** X4: when step 2 runs and [build-system] is a table whose [requires]
    is an array (or is absent, when a fresh empty array is inserted), the
    transform leaves [requires] as the old array followed by the
    requirements to add ([hatch-vcs] when [add_hatch_vcs], then
    [additional_requires]) that are not already present as strings, each
    once: the old elements keep their places and nothing else is added. *)
Theorem transform_requires_appends config doc bt arr :
  requires_gate config = true ->
  tget "build-system" doc = Some (ItemTable bt) ->
  tget "requires" bt = Some (ItemValue (VArray arr)) \/ (tget "requires" bt = None /\ arr = []) ->
  exists bt' added,
    tget "build-system" (transform config doc) = Some (ItemTable bt') /\
    tget "requires" bt' = Some (ItemValue (VArray (arr ++ map VString added))) /\
    NoDup added /\
    (forall s, In s added <-> In s (requires_to_add config) /\ existsb (str_eq s) arr = false).
Proof.
  intros G Hbs Hreq.
  rewrite tget_transform_build_system, step_requires_gate, G.
  unfold with_table_mut. rewrite tget_tmodify_same, tget_step_dynamic_other, Hbs by discriminate.
  simpl. destruct (push_missing_spec (requires_to_add config) arr) as (added & E & Hnd & Hin).
  exists (add_to_array "requires" (requires_to_add config) bt), added.
  split; [reflexivity|]. split; [|auto].
  rewrite tget_add_to_array_same.
  destruct Hreq as [H|[H ->]]; rewrite H; now rewrite E.
Qed.

Lemma transform_requires_appends_witness :
  exists bt' added,
    tget "build-system" (transform test_config test_doc) = Some (ItemTable bt') /\
    tget "requires" bt' = Some (ItemValue (VArray ([VString "hatchling"] ++ map VString added))) /\
    NoDup added /\
    (forall s, In s added <-> In s (requires_to_add test_config)
                              /\ existsb (str_eq s) [VString "hatchling"] = false).
Proof.
  apply (transform_requires_appends test_config test_doc
           (Table false false [("requires", ItemValue (VArray [VString "hatchling"]));
                               ("build-backend", vstr "hatchling.build")])).
  - reflexivity.
  - reflexivity.
  - left. reflexivity.
Defined.

(** X5: the transform never replaces a [requires] entry that is not an
    array: when [build-system] is absent, not a table, or a table whose
    [requires] is present but not an array (say a string), the
    [build-system] entry comes out exactly as it went in. *)
Theorem transform_keeps_non_array_requires config doc :
  (forall bt, tget "build-system" doc = Some (ItemTable bt) ->
     exists it, tget "requires" bt = Some it /\ forall a, it <> ItemValue (VArray a)) ->
  tget "build-system" (transform config doc) = tget "build-system" doc.
Proof.
  intros H. rewrite tget_transform_build_system, step_requires_gate.
  destruct (requires_gate config); [|apply tget_step_dynamic_other; discriminate].
  unfold with_table_mut. rewrite tget_tmodify_same, tget_step_dynamic_other by discriminate.
  destruct (tget "build-system" doc) as [[v|bt|ts]|] eqn:E; simpl; auto.
  destruct (H bt eq_refl) as (it & Hit & Hna).
  do 2 f_equal. unfold add_to_array, entry_or_insert. rewrite Hit.
  destruct bt as [i d es]. unfold with_array_mut, tmodify, map_entries. f_equal.
  apply emodify_id. intros it' E'. unfold tget in Hit. cbn [entries] in Hit.
  rewrite Hit in E'. inversion E'; subst.
  destruct it' as [[]| |]; auto. exfalso. eapply Hna. reflexivity.
Qed.

Lemma transform_keeps_non_array_requires_witness :
  tget "build-system" (transform test_config string_requires_doc)
  = tget "build-system" string_requires_doc.
Proof.
  apply transform_keeps_non_array_requires.
  intros bt Hbt. vm_compute in Hbt. inversion Hbt; subst.
  exists (vstr "hatchling"). split; [reflexivity|]. intros a. discriminate.
Defined.

(** ** The other tools' configuration *)

Lemma tool_step_keeps (b : bool) (g : table -> table) (P : string -> Prop) d tt :
  tget "tool" d = Some (ItemTable tt) ->
  (forall t k, P k -> tget k (g t) = tget k t) ->
  exists tt', tget "tool" (if b then nested_table "tool" g d else d) = Some (ItemTable tt') /\
    forall k, P k -> tget k tt' = tget k tt.
Proof.
  intros Ht Hg. destruct b.
  - rewrite tget_nested_table_same, Ht. eexists. split; [reflexivity|]. intros k Hk. now apply Hg.
  - exists tt. auto.
Qed.

(** X6: when [tool] is a table, the transform keeps it a table and leaves
    every entry of it other than [hatch], [pytest] and [bandit] (the
    configuration of other tools, such as [tool.ruff]) as it was. *)
Theorem transform_keeps_other_tools config doc tt :
  tget "tool" doc = Some (ItemTable tt) ->
  exists tt', tget "tool" (transform config doc) = Some (ItemTable tt') /\
    forall k, k <> "hatch" -> k <> "pytest" -> k <> "bandit" -> tget k tt' = tget k tt.
Proof.
  intros Ht. set (P := fun k => k <> "hatch" /\ k <> "pytest" /\ k <> "bandit").
  assert (Ht2 : tget "tool" (step_requires config (step_dynamic config doc)) = Some (ItemTable tt))
    by (rewrite tget_step_requires_other, tget_step_dynamic_other by discriminate; exact Ht).
  unfold transform, step_hatch, step_pytest, step_bandit.
  destruct (tool_step_keeps (enable_dynamic_version config) edit_tool_hatch P _ tt Ht2)
    as (t3 & H3 & K3).
  { intros t k [Hk _]. unfold edit_tool_hatch.
    rewrite tget_nested_table_other by auto. apply tget_set_implicit. }
  destruct (tool_step_keeps (enable_pytest_asyncio config) edit_tool_pytest P _ t3 H3)
    as (t4 & H4 & K4).
  { intros t k [_ [Hk _]]. unfold edit_tool_pytest.
    rewrite tget_nested_table_other by auto. apply tget_set_implicit. }
  destruct (tool_step_keeps (enable_bandit config) edit_tool_bandit P _ t4 H4)
    as (t5 & H5 & K5).
  { intros t k [_ [_ Hk]]. unfold edit_tool_bandit.
    rewrite tget_nested_table_other by auto. apply tget_set_implicit. }
  exists t5. split; [exact H5|]. intros k H1 H2 H3'.
  assert (Hk : P k) by (repeat split; assumption).
  rewrite K5, K4, K3 by exact Hk. reflexivity.
Qed.

Lemma transform_keeps_other_tools_witness :
  exists tt', tget "tool" (transform test_config ruff_doc) = Some (ItemTable tt') /\
    forall k, k <> "hatch" -> k <> "pytest" -> k <> "bandit" ->
      tget k tt' = tget k (Table true false
        [("ruff", ItemTable (Table false false [("line-length", ItemValue (VInteger 88))]))]).
Proof. apply transform_keeps_other_tools. reflexivity. Defined.

(** ** The walk *)

Lemma bytes_eqb_eq a b : bytes_eqb a b = true -> a = b.
Proof.
  revert b. induction a as [|x a IH]; intros [|y b]; simpl; try discriminate; auto.
  intros H. apply andb_prop in H as [H1 H2].
  apply Byte.byte_dec_bl in H1. subst. f_equal. now apply IH.
Qed.

Lemma to_str_Some nm dn : to_str nm = Some dn -> dn = nm /\ utf8_valid nm = true.
Proof. unfold to_str. destruct (utf8_valid nm); intros H; inversion H; auto. Qed.

(** X7: every path the walk returns names a [pyproject.toml] file, and
    each directory on the way to it has a UTF-8 name that is not one of
    [skip_dirs]. *)
Theorem find_pyproject_files_sound root skip_dirs r :
  find_pyproject_files root skip_dirs = Ok r ->
  forall p, In p r -> exists dirs,
    p = dirs ++ [pyproject_name] /\
    Forall (fun nm => utf8_valid nm = true /\ existsb (bytes_eqb nm) skip_dirs = false) dirs.
Proof.
  set (ok := fun nm => utf8_valid nm = true /\ existsb (bytes_eqb nm) skip_dirs = false).
  enough (G : forall n prefix files res, find_pyproject_files_recursive n prefix files skip_dirs = Ok res ->
    forall p, In p res -> In p files \/ exists dirs, p = prefix ++ dirs ++ [pyproject_name] /\ Forall ok dirs).
  { intros H p Hp. destruct (G root [] [] r H p Hp) as [[]|(dirs & E & F)]. now exists dirs. }
  clear r. intros n. induction n as [nm|nm rd cs Hcs|nm] using node_ind_forall;
    intros prefix files res H p Hp; simpl in H.
  - inversion H; subst. destruct Hp.
  - destruct rd; simpl in H; [|discriminate].
    revert files H. induction Hcs as [|c rest Hc Hrest IH]; intros files H.
    + inversion H; subst. now left.
    + destruct c as [nm'|nm' rd' cs'|nm'].
      * destruct (IH _ H) as [Hin|Hex]; [|now right].
        destruct (bytes_eqb nm' pyproject_name) eqn:Eq; [|now left].
        apply in_app_or in Hin as [Hin|[<-|[]]]; [now left|].
        right. exists []. apply bytes_eqb_eq in Eq. subst. split; [reflexivity|constructor].
      * destruct (to_str nm') as [dn|] eqn:Es; [|now apply IH].
        destruct (to_str_Some _ _ Es) as [-> Hu].
        destruct (existsb (bytes_eqb nm') skip_dirs) eqn:Esk; [now apply IH|].
        destruct (find_pyproject_files_recursive (Dir nm' rd' cs') (prefix ++ [nm']) files skip_dirs)
          as [f'|e] eqn:Ec; [|discriminate].
        destruct (IH _ H) as [Hin|Hex]; [|now right].
        destruct (Hc _ _ _ Ec p Hin) as [Hf|(dirs & E & F)]; [now left|].
        right. exists (nm' :: dirs). split.
        -- rewrite E, <- app_assoc. reflexivity.
        -- constructor; [split; assumption|exact F].
      * now apply IH.
  - inversion H; subst. destruct Hp.
Qed.

Lemma find_pyproject_files_sound_witness :
  find_pyproject_files (Dir [] true [File pyproject_name]) [] = Ok [[pyproject_name]] /\
  forall p, In p [[pyproject_name]] -> exists dirs,
    p = dirs ++ [pyproject_name] /\
    Forall (fun nm => utf8_valid nm = true /\ existsb (bytes_eqb nm) [] = false) dirs.
Proof.
  split; [vm_compute; reflexivity|].
  apply (find_pyproject_files_sound (Dir [] true [File pyproject_name]) []).
  vm_compute. reflexivity.
Defined.

(** X8: on a tree whose directories can all be read and have UTF-8
    names, the walk succeeds and returns exactly the [pyproject.toml]
    files that lie under no directory named in [skip_dirs], in the order
    of the directory listings. *)
Theorem find_pyproject_files_complete root skip_dirs :
  walkable root = true ->
  find_pyproject_files root skip_dirs = Ok (claimed_manifests root [] skip_dirs).
Proof.
  enough (G : forall n prefix files, walkable n = true ->
    find_pyproject_files_recursive n prefix files skip_dirs
    = Ok (match n with Dir _ _ _ => files | _ => [] end ++ claimed_manifests n prefix skip_dirs)).
  { intros H. unfold find_pyproject_files. rewrite G by exact H. destruct root; reflexivity. }
  intros n. induction n as [nm|nm rd cs Hcs|nm] using node_ind_forall;
    intros prefix files Hw; [reflexivity| |reflexivity].
  simpl in Hw. apply andb_prop in Hw as [Hr Hw]. subst rd.
  cbn [find_pyproject_files_recursive claimed_manifests negb].
  revert files Hw. induction Hcs as [|c rest Hc Hrest IH]; intros files Hw.
  - now rewrite app_nil_r.
  - cbn -[find_pyproject_files_recursive claimed_manifests walkable pyproject_name] in Hw |- *.
    apply andb_prop in Hw as [Hhead Hw].
    destruct c as [nm'|nm' rd' cs'|nm'].
    + rewrite IH by exact Hw. destruct (bytes_eqb nm' pyproject_name); simpl;
        now rewrite <- ?app_assoc.
    + apply andb_prop in Hhead as [Hu Hwc].
      unfold to_str. rewrite Hu.
      destruct (existsb (bytes_eqb nm') skip_dirs); [now rewrite IH|].
      rewrite (Hc (prefix ++ [nm']) files Hwc). rewrite IH by exact Hw.
      now rewrite <- app_assoc.
    + now rewrite IH.
Qed.

Lemma find_pyproject_files_complete_witness :
  find_pyproject_files (Dir [] true [Dir (list_byte_of_string "pkg") true [File pyproject_name]]) []
  = Ok (claimed_manifests (Dir [] true [Dir (list_byte_of_string "pkg") true [File pyproject_name]]) [] []).
Proof. apply find_pyproject_files_complete. vm_compute. reflexivity. Defined.

(** ** The orchestrator *)

(** X9: [run_uvinit] only ever hands a file to [modify_pyproject_toml]
    when the settings loaded, the walk listed the file, and the detector
    said [Ok(false)] for it (no [project.dynamic]); files the detector
    failed on are skipped, not transformed. *)
Theorem run_only_modifies_queued env yes f o :
  In (Modified f o) (fst (run_uvinit env yes)) ->
  exists config files, load_config env = Ok config /\
    find_files env (Config.skip_dirs config) = Ok files /\
    In f files /\ check_dynamic env f = Ok false /\ o = modify_file env f.
Proof.
  unfold run_uvinit. intros H.
  destruct (load_config env) as [config|e] eqn:Hc; [|destruct H].
  destruct (find_files env (Config.skip_dirs config)) as [files|e] eqn:Hf; [|destruct H].
  exists config, files. split; [reflexivity|split; [exact Hf|]].
  assert (Hq : In (Modified f o) (process_files env (queued env files))).
  { destruct files as [|f0 fs]; [destruct H|].
    destruct (queued env (f0 :: fs)) as [|q qs] eqn:Q; [destruct H|].
    destruct yes; simpl in H.
    - exact H.
    - destruct (stdin_line env) as [input|e]; simpl in H.
      + destruct (negb _); simpl in H.
        * destruct H as [H|[]]; discriminate.
        * destruct H as [H|H]; [discriminate|exact H].
      + destruct H as [H|[]]; discriminate. }
  unfold process_files in Hq. apply in_map_iff in Hq as (x & Ex & Hx).
  inversion Ex; subst. unfold queued in Hx. apply filter_In in Hx as [Hin Hd].
  split; [exact Hin|split; [|reflexivity]].
  destruct (check_dynamic env f) as [[]|]; congruence.
Qed.

Lemma run_only_modifies_queued_witness :
  In (Modified "pkg/pyproject.toml" (Err "Permission denied (os error 13)"))
     (fst (run_uvinit failing_write_env true)) /\
  exists config files, load_config failing_write_env = Ok config /\
    find_files failing_write_env (Config.skip_dirs config) = Ok files /\
    In "pkg/pyproject.toml" files /\ check_dynamic failing_write_env "pkg/pyproject.toml" = Ok false /\
    Err "Permission denied (os error 13)" = modify_file failing_write_env "pkg/pyproject.toml".
Proof.
  assert (H : In (Modified "pkg/pyproject.toml" (Err "Permission denied (os error 13)"))
                 (fst (run_uvinit failing_write_env true)))
    by (vm_compute; left; reflexivity).
  split; [exact H|]. exact (run_only_modifies_queued _ _ _ _ H).
Defined.

(** X10: when the walk finds no file, or every file it finds already has
    [project.dynamic] or could not be checked, the run succeeds without
    asking for confirmation and transforms nothing, whatever the
    skip-confirmation flag. *)
Theorem run_nothing_queued env yes config files :
  load_config env = Ok config ->
  find_files env (Config.skip_dirs config) = Ok files ->
  queued env files = [] ->
  run_uvinit env yes = ([], Ok tt).
Proof.
  intros Hc Hf Hq. unfold run_uvinit. rewrite Hc, Hf.
  destruct files as [|f fs]; [reflexivity|]. rewrite Hq. reflexivity.
Qed.

Lemma run_nothing_queued_witness :
  run_uvinit {| load_config := Ok Config.default;
                find_files := fun _ => Ok ["a/pyproject.toml"; "b/pyproject.toml"];
                check_dynamic := fun f => if String.eqb f "a/pyproject.toml" then Ok true
                                          else Err "Failed to parse TOML";
                stdin_line := Err "stdin closed";
                modify_file := fun _ => Ok tt |} false = ([], Ok tt).
Proof.
  apply (run_nothing_queued _ false Config.default ["a/pyproject.toml"; "b/pyproject.toml"]).
  - reflexivity.
  - reflexivity.
  - vm_compute. reflexivity.
Defined.

(** X11: the [uvinit] subcommand exits with status 1 exactly when the
    settings cannot be loaded, or the walk fails, or the confirmation line
    is asked for (no skip flag, some file queued) and cannot be read. *)
Theorem exit_code_failure_iff env yes :
  main_exit_code env yes = 1 <->
  (exists e, load_config env = Err e) \/
  (exists config e, load_config env = Ok config /\
     find_files env (Config.skip_dirs config) = Err e) \/
  (exists config files e, load_config env = Ok config /\
     find_files env (Config.skip_dirs config) = Ok files /\
     queued env files <> [] /\ yes = false /\ stdin_line env = Err e).
Proof.
  unfold main_exit_code, run_uvinit.
  destruct (load_config env) as [config|e] eqn:Hc.
  2: { split; [intros _; left; exists e; reflexivity|intros _; reflexivity]. }
  destruct (find_files env (Config.skip_dirs config)) as [files|e] eqn:Hf.
  2: { split; [intros _; right; left; exists config, e; split; [reflexivity|exact Hf]
              |intros _; reflexivity]. }
  split.
  - intros H. right; right.
    destruct files as [|f fs]; [discriminate|].
    destruct (queued env (f :: fs)) as [|q qs] eqn:Q; [discriminate|].
    destruct yes; [discriminate|].
    destruct (stdin_line env) as [input|e] eqn:Hs.
    + simpl in H. destruct (negb _); discriminate.
    + exists config, (f :: fs), e. repeat split; auto. rewrite Q. discriminate.
  - intros [(e & E)|[(c' & e & E1 & E2)|(c' & fs' & e & E1 & E2 & Q & Y & S)]].
    + discriminate.
    + inversion E1; subst. congruence.
    + inversion E1; subst c'. rewrite Hf in E2. inversion E2; subst fs' yes.
      destruct files as [|f fs]; [contradiction Q; reflexivity|].
      destruct (queued env (f :: fs)) as [|q qs]; [contradiction Q; reflexivity|].
      simpl. rewrite S. reflexivity.
Qed.

(** ** The settings file *)

Lemma as_strings_map (l : list string) : Config.as_strings (map VString l) = Some l.
Proof. induction l as [|s l IH]; simpl; [reflexivity|now rewrite IH]. Qed.

(** X12: the derived [Deserialize] of [Config] reads back every value its
    derived [Serialize] writes: all three sections and all their fields
    survive unchanged. *)
Theorem config_serde_round_trip (c : Config.Config) :
  Config.deserialize_config (Config.serialize_config c) = Ok c.
Proof.
  destruct c as [[sd ah edv ar] [t g] [f ts]].
  unfold Config.deserialize_config, Config.serialize_config, Config.section. simpl.
  unfold Config.deserialize, Config.deserialize_cargonew, Config.deserialize_tuarinew,
    Config.field_strings, Config.field_bool, Config.field_string, Config.strings_value. simpl.
  rewrite !as_strings_map. reflexivity.
Qed.

(** X13: [save_config] followed by [load_config], on a file system with a
    home directory where the directory and the file can be written, gives
    back the saved settings and writes nothing more, provided the TOML
    parser reads back what [to_string_pretty] wrote. *)
Theorem save_then_load tsp parse_toml fs h c :
  Config.home_dir fs = Some h -> Config.dir_ok fs = true -> Config.write_ok fs = true ->
  parse_toml (tsp (Config.serialize_config c)) = Ok (Config.serialize_config c) ->
  snd (Config.save_config tsp fs c) = Ok tt /\
  Config.load_config tsp parse_toml (fst (Config.save_config tsp fs c))
    = (fst (Config.save_config tsp fs c), Ok c).
Proof.
  intros Hh Hd Hw Hp. unfold Config.save_config. rewrite Hh, Hd, Hw. simpl.
  split; [reflexivity|].
  unfold Config.load_config, Config.get_config_path, Config.from_str. simpl.
  rewrite Hp, config_serde_round_trip. reflexivity.
Qed.

Lemma save_then_load_witness :
  snd (Config.save_config (fun _ => "") (Config.Build_ConfigFs (Some "/home/u") Config.Absent true true)
         Config.default_config) = Ok tt /\
  Config.load_config (fun _ => "") (fun _ => Ok (Config.serialize_config Config.default_config))
    (fst (Config.save_config (fun _ => "") (Config.Build_ConfigFs (Some "/home/u") Config.Absent true true)
            Config.default_config))
  = (fst (Config.save_config (fun _ => "") (Config.Build_ConfigFs (Some "/home/u") Config.Absent true true)
            Config.default_config), Ok Config.default_config).
Proof.
  apply (save_then_load _ _ _ "/home/u"); reflexivity.
Defined.

(** X14: on a first run (no settings file yet) [load_config] returns the
    defaults and writes them to the file, so the next [load_config] reads
    the same defaults back without writing again. *)
Theorem load_config_first_run tsp parse_toml fs h :
  Config.home_dir fs = Some h -> Config.config_file fs = Config.Absent ->
  Config.dir_ok fs = true -> Config.write_ok fs = true ->
  parse_toml (tsp (Config.serialize_config Config.default_config))
    = Ok (Config.serialize_config Config.default_config) ->
  snd (Config.load_config tsp parse_toml fs) = Ok Config.default_config /\
  Config.config_file (fst (Config.load_config tsp parse_toml fs))
    = Config.Contents (tsp (Config.serialize_config Config.default_config)) /\
  Config.load_config tsp parse_toml (fst (Config.load_config tsp parse_toml fs))
    = (fst (Config.load_config tsp parse_toml fs), Ok Config.default_config).
Proof.
  intros Hh Ha Hd Hw Hp.
  assert (E : Config.load_config tsp parse_toml fs
              = (fst (Config.save_config tsp fs Config.default_config), Ok Config.default_config)).
  { unfold Config.load_config, Config.get_config_path. rewrite Hh, Ha.
    unfold Config.save_config. rewrite Hh, Hd, Hw. reflexivity. }
  rewrite E. simpl.
  destruct (save_then_load tsp parse_toml fs h Config.default_config Hh Hd Hw Hp) as [_ HL].
  split; [reflexivity|split; [|exact HL]].
  unfold Config.save_config. rewrite Hh, Hd, Hw. reflexivity.
Qed.

Lemma load_config_first_run_witness :
  let fs := Config.Build_ConfigFs (Some "/home/u") Config.Absent true true in
  let tsp := fun _ : list (string * value) => "[uvinit]" in
  let parse_toml := fun _ : string => Ok (Config.serialize_config Config.default_config) in
  snd (Config.load_config tsp parse_toml fs) = Ok Config.default_config /\
  Config.config_file (fst (Config.load_config tsp parse_toml fs))
    = Config.Contents (tsp (Config.serialize_config Config.default_config)) /\
  Config.load_config tsp parse_toml (fst (Config.load_config tsp parse_toml fs))
    = (fst (Config.load_config tsp parse_toml fs), Ok Config.default_config).
Proof.
  intros fs tsp parse_toml.
  apply (load_config_first_run tsp parse_toml fs "/home/u"); reflexivity.
Defined.

(** X15: an existing settings file whose TOML lacks one of the sections
    [uvinit], [cargonew] or [tuarinew] (even an empty file) makes
    [load_config] fail with the parse error; the file is not repaired or
    rewritten. *)
Theorem load_config_missing_section tsp parse_toml fs h content kvs k :
  Config.home_dir fs = Some h -> Config.config_file fs = Config.Contents content ->
  parse_toml content = Ok kvs ->
  In k ["uvinit"; "cargonew"; "tuarinew"] -> Config.vget k kvs = None ->
  Config.load_config tsp parse_toml fs = (fs, Err "Failed to parse config file").
Proof.
  intros Hh Hc Hp Hk Hv.
  unfold Config.load_config, Config.get_config_path, Config.from_str.
  rewrite Hh, Hc, Hp.
  assert (E : exists e, Config.deserialize_config kvs = Err e).
  { unfold Config.deserialize_config, Config.section.
    destruct Hk as [<-|[<-|[<-|[]]]]; rewrite Hv;
      repeat match goal with
      | |- context [match Config.vget ?x kvs with _ => _ end] =>
          destruct (Config.vget x kvs) as [[]|]
      end; eauto;
      repeat match goal with
      | |- context [match ?d with Ok _ => _ | Err _ => _ end] =>
          match d with
          | Config.deserialize _ => destruct d
          | Config.deserialize_cargonew _ => destruct d
          | Config.deserialize_tuarinew _ => destruct d
          end
      end; eauto. }
  destruct E as [e ->]. reflexivity.
Qed.

Lemma load_config_missing_section_witness :
  Config.load_config (fun _ => "") (fun _ => Ok [("uvinit", VInlineTable [])])
    (Config.Build_ConfigFs (Some "/home/u") (Config.Contents "[uvinit]") true true)
  = (Config.Build_ConfigFs (Some "/home/u") (Config.Contents "[uvinit]") true true,
     Err "Failed to parse config file").
Proof.
  apply (load_config_missing_section _ _ _ "/home/u" "[uvinit]" [("uvinit", VInlineTable [])] "cargonew").
  - reflexivity.
  - reflexivity.
  - reflexivity.
  - simpl; auto.
  - reflexivity.
Defined.

(** X16: [load_config] writes only when there is no settings file: when a
    file exists, readable or not, parsable or not, the file system is left
    as it was. *)
Theorem load_config_keeps_existing tsp parse_toml fs :
  Config.config_file fs <> Config.Absent ->
  fst (Config.load_config tsp parse_toml fs) = fs.
Proof.
  intros Ha. unfold Config.load_config, Config.get_config_path.
  destruct (Config.home_dir fs); [|reflexivity].
  destruct (Config.config_file fs); [contradiction Ha; reflexivity|reflexivity|reflexivity].
Qed.

Lemma load_config_keeps_existing_witness :
  fst (Config.load_config (fun _ => "") (fun _ => Err "expected `=`")
         (Config.Build_ConfigFs (Some "/home/u") (Config.Contents "skip_dirs") true true))
  = Config.Build_ConfigFs (Some "/home/u") (Config.Contents "skip_dirs") true true.
Proof.
  apply load_config_keeps_existing. discriminate.
Defined.

(** X17: [post-init config --show-path] prints the path and touches no
    file, even when the settings file does not exist yet; [post-init config]
    on a first run creates the file with the defaults and prints their
    serialization. *)
Theorem show_config_first_run tsp parse_toml fs h :
  Config.home_dir fs = Some h -> Config.config_file fs = Config.Absent ->
  Config.dir_ok fs = true -> Config.write_ok fs = true ->
  show_config tsp parse_toml fs true
    = (fs, [("📄 Config file: " ++ Config.config_path h)%string], Ok tt) /\
  show_config tsp parse_toml fs false
    = (fst (Config.load_config tsp parse_toml fs),
       ["📄 Current configuration:"; tsp (Config.serialize_config Config.default_config)], Ok tt) /\
  Config.config_file (fst (Config.load_config tsp parse_toml fs))
    = Config.Contents (tsp (Config.serialize_config Config.default_config)).
Proof.
  intros Hh Ha Hd Hw.
  assert (E : Config.load_config tsp parse_toml fs
              = (fst (Config.save_config tsp fs Config.default_config), Ok Config.default_config)).
  { unfold Config.load_config, Config.get_config_path. rewrite Hh, Ha.
    unfold Config.save_config. rewrite Hh, Hd, Hw. reflexivity. }
  unfold show_config. rewrite E. unfold Config.get_config_path. rewrite Hh.
  split; [reflexivity|split; [reflexivity|]].
  unfold Config.save_config. rewrite Hh, Hd, Hw. reflexivity.
Qed.

Lemma show_config_first_run_witness :
  let fs := Config.Build_ConfigFs (Some "/home/u") Config.Absent true true in
  let tsp := fun _ : list (string * value) => "[uvinit]" in
  let parse_toml := fun _ : string => Err "unused" in
  show_config tsp parse_toml fs true
    = (fs, [("📄 Config file: " ++ Config.config_path "/home/u")%string], Ok tt) /\
  show_config tsp parse_toml fs false
    = (fst (Config.load_config tsp parse_toml fs),
       ["📄 Current configuration:"; tsp (Config.serialize_config Config.default_config)], Ok tt) /\
  Config.config_file (fst (Config.load_config tsp parse_toml fs))
    = Config.Contents (tsp (Config.serialize_config Config.default_config)).
Proof.
  intros fs tsp parse_toml.
  apply (show_config_first_run tsp parse_toml fs "/home/u"); reflexivity.
Defined.
